(** * Posture analysis of [PostureDetector.tsx]

  A shallow embedding of the analysis core of
  [src/components/PostureDetector.tsx]: [calculateAngle] and
  [analyzePosture], and of what shows their result: [getScoreColor],
  [getMessageColor] and the overlay of [drawPose].

  A JavaScript [number] is an IEEE 754 binary64 value, so it is modelled
  by Rocq's primitive [float]: [+], [-], [*], [/], [Math.abs] and the
  comparisons are the processor's operations, with their NaN, infinity
  and signed zero.  The specification of these operations on
  [spec_float] ([FloatAxioms]) is what the general theorems rest on. *)

From Stdlib Require Import ZArith Lia Bool List String Reals Lra Psatz.
From Stdlib Require Import Floats.
From Stdlib Require Import Permutation.
Import ListNotations.

Set Warnings "-inexact-float".

Local Open Scope string_scope.
Local Open Scope list_scope.
Local Open Scope float_scope.

(** ** Numbers of the JavaScript runtime *)

Module Math.

(** [Math.PI]. *)
Definition PI : float := 3.141592653589793.

(** [Math.abs]. *)
Definition abs (x : float) : float := PrimFloat.abs x.

(** [Math.min(a, b)]: NaN when an argument is NaN, and [-0] below [+0]. *)
Definition min (a b : float) : float :=
  if is_nan a || is_nan b then nan
  else if a <? b then a
  else if b <? a then b
  else if get_sign a then a else b.

(** [Math.max(a, b)]: NaN when an argument is NaN, and [+0] above [-0]. *)
Definition max (a b : float) : float :=
  if is_nan a || is_nan b then nan
  else if a <? b then b
  else if b <? a then a
  else if get_sign a then b else a.

(** The float of an integer (exact below 2^53 in magnitude). *)
Definition of_Z (n : Z) : float :=
  SF2Prim (binary_normalize prec emax n 0 false).

(** [Math.round(x)]: [x] itself when it is not finite or already an
    integer; otherwise the integer nearest to [x], the larger one on a
    tie, which is [floor (x + 1/2)] computed exactly on the mantissa; a
    result of zero keeps the sign of [x]. *)
Definition round (x : float) : float :=
  match Prim2SF x with
  | S754_finite s m e =>
      if (0 <=? e)%Z then x
      else
        let n := ((2 * cond_Zopp s (Zpos m) + 2 ^ (- e)) / 2 ^ (1 - e))%Z in
        if (n =? 0)%Z then (if s then neg_zero else zero) else of_Z n
  | _ => x
  end.

End Math.

(** JavaScript's [a > b]. *)
Definition gtb (a b : float) : bool := b <? a.
Infix ">?" := gtb (at level 70, no associativity) : float_scope.

(** ** Data *)

(** A point [{x, y}]. *)
Record Point2D : Type := mkPoint { px : float; py : float }.

(** Modelled from the spec: the [Keypoint] type of the pose-detection
    library, whose declaration is not part of the sources (spec, section 3:
    a name, a position and a confidence that may be absent). *)
Record Keypoint : Type := mkKeypoint
  { name : string;
    x : float;
    y : float;
    score : option float }.

(** The [color] field of [PostureStatus]. *)
Inductive Color : Type := success | warning | destructive.

(** [interface PostureStatus]. *)
Record PostureStatus : Type := mkStatus
  { status_score : float;
    message : string;
    color : Color }.

(** The severity vocabulary of the specification, carried by [color]. *)
Inductive Severity : Type := OK | WARNING | CRITICAL.

Definition severity (r : PostureStatus) : Severity :=
  match color r with
  | success => OK
  | warning => WARNING
  | destructive => CRITICAL
  end.

(** [keypoints.find(kp => kp.name === n)]. *)
Definition find_keypoint (n : string) (keypoints : list Keypoint)
  : option Keypoint :=
  List.find (fun kp => String.eqb (name kp) n) keypoints.

(** [kp.score! < c]: the comparison converts an absent score ([undefined])
    to NaN, and every comparison with NaN is false. *)
Definition score_below (kp : Keypoint) (c : float) : bool :=
  match score kp with
  | Some s => s <? c
  | None => false
  end.

Definition minConfidence : float := 0.3.

(** The four landmarks the analysis looks up. *)
Definition required : list string :=
  ["left_shoulder"; "right_shoulder"; "left_hip"; "right_hip"].

Section Analysis.

(** [Math.atan2(y, x)]: implementation-approximated in ECMAScript, so it
    is a parameter of the development. *)
Variable atan2 : float -> float -> float.

(** [calculateAngle(point1, point2, point3)]. *)
Definition calculateAngle (point1 point2 point3 : Point2D) : float :=
  let radians :=
    atan2 (py point3 - py point2) (px point3 - px point2)
    - atan2 (py point1 - py point2) (px point1 - px point2) in
  let angle := Math.abs ((radians * 180.0) / Math.PI) in
  if angle >? 180.0 then 360 - angle else angle.

(** Lines 67-69 and 72-74: the tilt of a pair of landmarks. *)
Definition tilt (l r : Keypoint) : float :=
  let diff := Math.abs (y l - y r) in
  let width := Math.abs (x l - x r) in
  (diff / width) * 100.

(** Lines 77-79. *)
Definition spineAngle (leftShoulder rightShoulder leftHip rightHip : Keypoint)
  : float :=
  let shoulderCenter :=
    mkPoint ((x leftShoulder + x rightShoulder) / 2)
            ((y leftShoulder + y rightShoulder) / 2) in
  let hipCenter :=
    mkPoint ((x leftHip + x rightHip) / 2) ((y leftHip + y rightHip) / 2) in
  Math.abs
    (90 - Math.abs
            (atan2 (py hipCenter - py shoulderCenter)
                   (px hipCenter - px shoulderCenter)
             * 180 / Math.PI)).

(** Lines 82-86: the clamped aggregate score, before rounding. *)
Definition aggregate (shoulderTilt hipTilt spine : float) : float :=
  let score := 100 in
  let score := score - shoulderTilt * 2 in
  let score := score - hipTilt * 2 in
  let score := score - spine * 0.5 in
  Math.max 0 (Math.min 100 score).

(** Lines 89-99: the feedback for the two tilts and the clamped score. *)
Definition feedback (shoulderTilt hipTilt score : float) : PostureStatus :=
  if shoulderTilt >? 15 then
    mkStatus (Math.round score) "Straighten your shoulders" destructive
  else if hipTilt >? 15 then
    mkStatus (Math.round score) "Adjust your sitting posture" warning
  else if score >? 80 then
    mkStatus (Math.round score) "Good posture detected!" success
  else if score >? 60 then
    mkStatus (Math.round score) "Minor adjustments needed" warning
  else
    mkStatus (Math.round score) "Poor posture - sit up straight" destructive.

(** [analyzePosture(keypoints)]. *)
Definition analyzePosture (keypoints : list Keypoint) : PostureStatus :=
  match find_keypoint "left_shoulder" keypoints,
        find_keypoint "right_shoulder" keypoints,
        find_keypoint "left_hip" keypoints,
        find_keypoint "right_hip" keypoints with
  | Some leftShoulder, Some rightShoulder, Some leftHip, Some rightHip =>
      if score_below leftShoulder minConfidence
         || score_below rightShoulder minConfidence
         || score_below leftHip minConfidence
         || score_below rightHip minConfidence
      then mkStatus 0 "Move closer or improve lighting" warning
      else
        let shoulderTilt := tilt leftShoulder rightShoulder in
        let hipTilt := tilt leftHip rightHip in
        let spine := spineAngle leftShoulder rightShoulder leftHip rightHip in
        feedback shoulderTilt hipTilt (aggregate shoulderTilt hipTilt spine)
  | _, _, _, _ => mkStatus 0 "Position yourself in frame" warning
  end.

End Analysis.

(** The input passed validation: the four landmarks are found and none of
    them is below the confidence gate. *)
Definition validated (keypoints : list Keypoint)
  (leftShoulder rightShoulder leftHip rightHip : Keypoint) : Prop :=
  find_keypoint "left_shoulder" keypoints = Some leftShoulder
  /\ find_keypoint "right_shoulder" keypoints = Some rightShoulder
  /\ find_keypoint "left_hip" keypoints = Some leftHip
  /\ find_keypoint "right_hip" keypoints = Some rightHip
  /\ score_below leftShoulder minConfidence = false
  /\ score_below rightShoulder minConfidence = false
  /\ score_below leftHip minConfidence = false
  /\ score_below rightHip minConfidence = false.

(** ** The score in the words of the specification *)

(** [clamp(v, lo, hi)]. *)
Definition clamp (v lo hi : float) : float :=
  if v <? lo then lo else if hi <? v then hi else v.

Section Specification.

Variable atan2 : float -> float -> float.

(** Section 4.3: [|left.y - right.y| / |left.x - right.x| * 100]. *)
Definition spec_tilt (left right : Keypoint) : float :=
  Math.abs (y left - y right) / Math.abs (x left - x right) * 100.

(** The midpoint of a pair of landmarks. *)
Definition midpoint (left right : Keypoint) : Point2D :=
  mkPoint ((x left + x right) / 2) ((y left + y right) / 2).

(** Section 4.3: the deviation from vertical of the line from the shoulder
    midpoint to the hip midpoint. *)
Definition spec_spineAngle (leftShoulder rightShoulder leftHip rightHip : Keypoint)
  : float :=
  let shoulderCenter := midpoint leftShoulder rightShoulder in
  let hipCenter := midpoint leftHip rightHip in
  Math.abs
    (90 - Math.abs
            (atan2 (py hipCenter - py shoulderCenter)
                   (px hipCenter - px shoulderCenter) * 180 / Math.PI)).

(** Section 4.4: the clamped penalty sum, rounded to the nearest integer. *)
Definition spec_score (leftShoulder rightShoulder leftHip rightHip : Keypoint)
  : float :=
  let shoulderTilt := spec_tilt leftShoulder rightShoulder in
  let hipTilt := spec_tilt leftHip rightHip in
  let spineAngle := spec_spineAngle leftShoulder rightShoulder leftHip rightHip in
  Math.round
    (clamp (100 - shoulderTilt * 2 - hipTilt * 2 - spineAngle * 0.5) 0 100).

End Specification.

(** An instance of [Math.atan2] that is exact where ECMAScript fixes the
    result (an argument that is NaN, zero or infinite: a direction along an
    axis, or a diagonal at infinity), and the middle of the quadrant
    elsewhere.  It serves to run the analysis on inputs whose directions
    lie on the axes. *)
Definition atan2_axes (y x : float) : float :=
  let pi := Math.PI in
  let half := pi / 2 in
  let quarter := pi / 4 in
  let sgn (v : float) := if get_sign y then - v else v in
  if is_nan y || is_nan x then nan
  else if is_zero y then (if get_sign x then sgn pi else sgn 0)
  else if is_zero x then sgn half
  else if is_infinity y then
    (if is_infinity x then (if get_sign x then sgn (3 * quarter) else sgn quarter)
     else sgn half)
  else if is_infinity x then (if get_sign x then sgn pi else sgn 0)
  else if get_sign x then sgn (3 * quarter) else sgn quarter.

(** A keypoint with a confidence. *)
Definition kp (n : string) (px py c : float) : Keypoint :=
  mkKeypoint n px py (Some c).

(** ** Example inputs *)

(** Level shoulders and hips, vertical spine. *)
Definition upright : list Keypoint :=
  [ kp "nose" 50 0 0.9;
    kp "left_shoulder" 0 10 0.9; kp "right_shoulder" 100 10 0.9;
    kp "left_hip" 0 100 0.9; kp "right_hip" 100 100 0.9 ].

(** Both shoulders at the same place. *)
Definition coincident_shoulders : list Keypoint :=
  [ kp "left_shoulder" 100 50 0.9; kp "right_shoulder" 100 50 0.9;
    kp "left_hip" 80 150 0.9; kp "right_hip" 120 150 0.9 ].

(** Both hips at the same place. *)
Definition coincident_hips : list Keypoint :=
  [ kp "left_shoulder" 0 10 0.9; kp "right_shoulder" 100 10 0.9;
    kp "left_hip" 50 100 0.9; kp "right_hip" 50 100 0.9 ].

(** The left shoulder comes without a confidence. *)
Definition absent_confidence : list Keypoint :=
  [ mkKeypoint "left_shoulder" 0 0 None; kp "right_shoulder" 100 20 0.9;
    kp "left_hip" 0 100 0.9; kp "right_hip" 100 100 0.9 ].

(** The left hip is seen with confidence 0.1. *)
Definition low_confidence : list Keypoint :=
  [ kp "left_shoulder" 0 10 0.9; kp "right_shoulder" 100 10 0.9;
    kp "left_hip" 0 100 0.1; kp "right_hip" 100 100 0.9 ].

(** The right hip is missing, the left shoulder is listed twice. *)
Definition missing_hip : list Keypoint :=
  [ kp "left_shoulder" 0 10 0.9; kp "right_shoulder" 100 10 0.9;
    kp "left_shoulder" 7 7 0.2; kp "left_hip" 0 100 0.9 ].

(** The example of the specification: the right shoulder 20 lower over a
    width of 100, level hips, vertical spine. *)
Definition tilted_shoulders : list Keypoint :=
  [ kp "left_shoulder" 0 0 0.9; kp "right_shoulder" 100 20 0.9;
    kp "left_hip" 0 100 0.9; kp "right_hip" 100 100 0.9 ].

(** A shoulder tilt of 9.875 and nothing else: the aggregate is 80.25. *)
Definition slightly_tilted : list Keypoint :=
  [ kp "left_shoulder" 0 0 0.9; kp "right_shoulder" 100 9.875 0.9;
    kp "left_hip" 0 104.9375 0.9; kp "right_hip" 100 104.9375 0.9 ].

(** The shoulders one above the other, level hips. *)
Definition stacked_shoulders : list Keypoint :=
  [ kp "left_shoulder" 50 0 0.9; kp "right_shoulder" 50 20 0.9;
    kp "left_hip" 0 100 0.9; kp "right_hip" 100 100 0.9 ].

(** The hips one above the other, level shoulders. *)
Definition stacked_hips : list Keypoint :=
  [ kp "left_shoulder" 0 10 0.9; kp "right_shoulder" 100 10 0.9;
    kp "left_hip" 50 100 0.9; kp "right_hip" 50 130 0.9 ].

(** A shoulder tilt of 10 and nothing else: the aggregate is 80. *)
Definition tilted_by_10 : list Keypoint :=
  [ kp "left_shoulder" 0 0 0.9; kp "right_shoulder" 100 10 0.9;
    kp "left_hip" 0 95 0.9; kp "right_hip" 100 95 0.9 ].

(** ** Presentation *)

(** JavaScript's [a >= b]. *)
Definition geb (a b : float) : bool := b <=? a.
Infix ">=?" := geb (at level 70, no associativity) : float_scope.

(** [getScoreColor(score)]. *)
Definition getScoreColor (score : float) : string :=
  if score >=? 80 then "text-success"
  else if score >=? 60 then "text-warning"
  else "text-destructive".

(** [getMessageColor(color)]: the lookup [colors[color]]. *)
Definition getMessageColor (color : Color) : string :=
  match color with
  | success => "text-success"
  | warning => "text-warning"
  | destructive => "text-destructive"
  end.

(** ** The overlay *)

(** The [Pose] of the pose-detection library, whose declaration is not part
    of the sources: the code reads its field [keypoints] only. *)
Record Pose : Type := mkPose { keypoints : list Keypoint }.

(** What [drawPose] does to the 2D context [ctx], in order: its method
    calls and the assignments to its properties. *)
Inductive CanvasOp : Type :=
| beginPath
| arc (cx cy radius startAngle endAngle : float)
| fillStyle (style : string)
| fill
| moveTo (cx cy : float)
| lineTo (cx cy : float)
| strokeStyle (style : string)
| lineWidth (width : float)
| stroke.

(** [kp.score! > c]: false on an absent score, as every comparison with
    NaN. *)
Definition score_above (kp : Keypoint) (c : float) : bool :=
  match score kp with
  | Some s => s >? c
  | None => false
  end.

(** Lines 110-117: the body of [keypoints.forEach]. *)
Definition draw_keypoint (keypoint : Keypoint) : list CanvasOp :=
  if score_above keypoint 0.3 then
    [ beginPath;
      arc (x keypoint) (y keypoint) 5 0 (2 * Math.PI);
      fillStyle "#3B82F6";
      fill ]
  else [].

(** Lines 120-125. *)
Definition connections : list (string * string) :=
  [ ("left_shoulder", "right_shoulder");
    ("left_hip", "right_hip");
    ("left_shoulder", "left_hip");
    ("right_shoulder", "right_hip") ].

(** Lines 127-139: the body of [connections.forEach]. *)
Definition draw_connection (keypoints : list Keypoint)
  (connection : string * string) : list CanvasOp :=
  let '(start, stop) := connection in
  match find_keypoint start keypoints, find_keypoint stop keypoints with
  | Some startPoint, Some endPoint =>
      if score_above startPoint 0.3 && score_above endPoint 0.3 then
        [ beginPath;
          moveTo (x startPoint) (y startPoint);
          lineTo (x endPoint) (y endPoint);
          strokeStyle "#8B5CF6";
          lineWidth 3;
          stroke ]
      else []
  | _, _ => []
  end.

(** [drawPose(poses, ctx)], as the trace it leaves on [ctx]; [None] is a
    [poses] that is [null] or [undefined]. *)
Definition drawPose (poses : option (list Pose)) : list CanvasOp :=
  match poses with
  | None | Some [] => []
  | Some (pose :: _) =>
      let keypoints := keypoints pose in
      flat_map draw_keypoint keypoints
      ++ flat_map (draw_connection keypoints) connections
  end.

(** The centres of the circles of a trace. *)
Definition circles (ops : list CanvasOp) : list (float * float) :=
  flat_map
    (fun op => match op with arc cx cy _ _ _ => [(cx, cy)] | _ => [] end)
    ops.

(** The segments of a trace: each [moveTo] with the [lineTo] after it. *)
Fixpoint segments (ops : list CanvasOp)
  : list ((float * float) * (float * float)) :=
  match ops with
  | [] => []
  | moveTo x1 y1 :: rest =>
      match rest with
      | lineTo x2 y2 :: _ => ((x1, y1), (x2, y2)) :: segments rest
      | _ => segments rest
      end
  | _ :: rest => segments rest
  end.

(** A landmark that is found and that [drawPose] shows. *)
Definition shown (keypoints : list Keypoint) (n : string) : bool :=
  match find_keypoint n keypoints with
  | Some k => score_above k 0.3
  | None => false
  end.

(** Two keypoints at one place. *)
Definition same_place (a b : Keypoint) : Prop := x a = x b /\ y a = y b.

(** ** More example inputs *)

(** The keypoints of [upright] as a detected pose. *)
Definition upright_pose : Pose := mkPose upright.

(** [upright], seen from behind: the labels left and right change places. *)
Definition upright_from_behind : list Keypoint :=
  [ kp "nose" 50 0 0.9;
    kp "right_shoulder" 0 10 0.9; kp "left_shoulder" 100 10 0.9;
    kp "right_hip" 0 100 0.9; kp "left_hip" 100 100 0.9 ].

(** Shoulder and hip tilts of 9.9375 and nothing else: the aggregate is
    60.25. *)
Definition tilted_to_60 : list Keypoint :=
  [ kp "left_shoulder" 0 0 0.9; kp "right_shoulder" 100 9.9375 0.9;
    kp "left_hip" 0 100 0.9; kp "right_hip" 100 109.9375 0.9 ].

(** Shoulder and hip tilts of 12.5 and nothing else: the aggregate is
    50. *)
Definition poor_posture : list Keypoint :=
  [ kp "left_shoulder" 0 0 0.9; kp "right_shoulder" 64 8 0.9;
    kp "left_hip" 0 100 0.9; kp "right_hip" 64 108 0.9 ].




(** * Binary64 arithmetic: definitions

    The reals that floats stand for, and what it means for a float to be a
    rounded real. *)

Module Binary64.

Local Open Scope Z_scope.

Definition bpow (e : Z) : R := powerRZ 2 e.

(** The real number [m * 2^e]. *)
Definition F2R (m e : Z) : R := (IZR m * bpow e)%R.

Definition sgn (s : bool) : R := if s then (-1)%R else 1%R.

Definition b2z (b : bool) : Z := if b then 1 else 0.

(** [shr_inv M k mrs]: the record [mrs] is [M] shifted right by [k] bits:
    with everything doubled, [2M = m * 2^(k+1) + r * 2^k + low], where
    [low < 2^k] is non-zero exactly when the sticky bit is set. *)
Definition shr_inv (M k : Z) (mrs : shr_record) : Prop :=
  0 <= shr_m mrs /\
  exists low,
    0 <= low < 2 ^ k
    /\ 2 * M = shr_m mrs * 2 ^ (k + 1) + b2z (shr_r mrs) * 2 ^ k + low
    /\ (shr_s mrs = true <-> low <> 0).

Abbreviation cexp x := (fexp prec emax x).

(** [nearest_even X D k]: the integer [k] is [X / D] rounded to nearest,
    ties to even ([D] is even, so the tie is tested on integers). *)
Definition nearest_even (X D k : Z) : Prop :=
  2 * Z.abs (k * D - X) <= D
  /\ (2 * Z.abs (k * D - X) = D -> Z.even k = true).

(** The value that orders floats: infinities sit at [2^1024], beyond every
    finite float. *)
Definition SFx (x : spec_float) : R :=
  match x with
  | S754_zero _ => 0%R
  | S754_infinity s => if s then (- bpow 1024)%R else bpow 1024
  | S754_nan => 0%R
  | S754_finite s m e => F2R (cond_Zopp s (Z.pos m)) e
  end.

Definition SFsign (x : spec_float) : bool :=
  match x with
  | S754_zero s | S754_infinity s | S754_finite s _ _ => s
  | S754_nan => false
  end.

Definition SFis_nan (x : spec_float) : bool :=
  match x with S754_nan => true | _ => false end.

Definition SFfinite (x : spec_float) : bool :=
  match x with
  | S754_zero _ | S754_finite _ _ _ => true
  | _ => false
  end.

Abbreviation valid x := (SpecFloat.valid_binary prec emax x = true).

(** [rounded s x r]: the float [r], of sign [s], is the positive real [x]
    rounded to nearest-even (and to an infinity from [2^1024] on). *)
Definition rounded (s : bool) (x : R) (r : spec_float) : Prop :=
  exists M e m1,
    0 < M /\ x = F2R M e /\ e <= cexp (Zdigits2 M + e)
    /\ nearest_even (2 * M) (2 ^ (cexp (Zdigits2 M + e) - e + 1)) m1
    /\ valid r /\ SFis_nan r = false /\ SFsign r = s
    /\ SFx r = (sgn s * Rmin (F2R m1 (cexp (Zdigits2 M + e))) (bpow 1024))%R.

(** [rounds_to X r]: the float [r] is the real [X] rounded (a zero of
    either sign when [X] is zero). *)
Definition rounds_to (X : R) (r : spec_float) : Prop :=
  (X = 0%R /\ exists s, r = S754_zero s)
  \/ (exists s x, X = (sgn s * x)%R /\ rounded s x r).

(** The ordering value of a float. *)
Definition FX (a : float) : R := SFx (Prim2SF a).

Definition pos_finite (c : float) : Prop :=
  SFfinite (Prim2SF c) = true /\ (0 < FX c)%R.

(** A float that is NaN or carries the sign [+]. *)
Definition unsigned (a : float) : Prop :=
  is_nan a = true \/ SFsign (Prim2SF a) = false.

End Binary64.

Import Binary64.

(** The invariant of the specification on [score]: a float whose value is
    an integer of [[0,100]]. *)
Definition integer_score (v : float) : Prop :=
  SFfinite (Prim2SF v) = true
  /\ exists n : Z, (0 <= n <= 100)%Z /\ FX v = IZR n.


(** * Binary64 arithmetic: facts

    What the analysis needs of IEEE 754 arithmetic, proved on the
    specification of the operations ([SpecFloat]): the order of floats is
    the order of the reals they stand for, and subtraction and
    multiplication round the exact result to nearest-even, so they are
    monotone. *)

Module Binary64Facts.

Local Open Scope Z_scope.

(** ** Powers of two *)

Lemma bpow_gt_0 e : (0 < bpow e)%R.
Proof. apply powerRZ_lt. lra. Qed.

Lemma bpow_add a b : bpow (a + b) = (bpow a * bpow b)%R.
Proof. apply powerRZ_add. lra. Qed.

Lemma bpow_0 : bpow 0 = 1%R.
Proof. reflexivity. Qed.

Lemma bpow_1 : bpow 1 = 2%R.
Proof. unfold bpow. simpl. lra. Qed.

Lemma bpow_succ e : bpow (e + 1) = (2 * bpow e)%R.
Proof. rewrite bpow_add, bpow_1. lra. Qed.

Lemma bpow_pred e : bpow (e - 1) = (bpow e / 2)%R.
Proof.
  replace e with ((e - 1) + 1) at 2 by lia.
  rewrite bpow_succ. lra.
Qed.

Lemma bpow_ge_1 k : 0 <= k -> (1 <= bpow k)%R.
Proof.
  intros Hk. pattern k. apply natlike_ind; [rewrite bpow_0; lra| |exact Hk].
  intros n _ IH. unfold Z.succ. rewrite bpow_succ. lra.
Qed.

Lemma bpow_le a b : a <= b -> (bpow a <= bpow b)%R.
Proof.
  intros H. replace b with (a + (b - a)) by lia.
  rewrite bpow_add.
  pose proof (bpow_ge_1 (b - a) ltac:(lia)).
  pose proof (bpow_gt_0 a). nra.
Qed.

Lemma bpow_lt a b : a < b -> (bpow a < bpow b)%R.
Proof.
  intros H. apply Rlt_le_trans with (bpow (a + 1)).
  - rewrite bpow_succ. pose proof (bpow_gt_0 a). lra.
  - apply bpow_le. lia.
Qed.

Lemma bpow_lt_inv a b : (bpow a < bpow b)%R -> a < b.
Proof.
  intros H. destruct (Z_lt_le_dec a b) as [L|L]; [exact L|].
  apply bpow_le in L. lra.
Qed.

Lemma bpow_le_inv a b : (bpow a <= bpow b)%R -> a <= b.
Proof.
  intros H. destruct (Z_lt_le_dec b a) as [L|L]; [|exact L].
  apply bpow_lt in L. lra.
Qed.

Lemma IZR_pow2 n : 0 <= n -> IZR (2 ^ n) = bpow n.
Proof.
  intros Hn. pattern n. apply natlike_ind; [reflexivity| |exact Hn].
  intros k Hk IH. rewrite Z.pow_succ_r by exact Hk.
  rewrite mult_IZR, IH. unfold Z.succ. rewrite bpow_succ. reflexivity.
Qed.

Lemma F2R_shift m e k : 0 <= k -> F2R (m * 2 ^ k) (e - k) = F2R m e.
Proof.
  intros Hk. unfold F2R. rewrite mult_IZR, IZR_pow2 by exact Hk.
  replace e with ((e - k) + k) at 2 by lia. rewrite bpow_add. lra.
Qed.

Lemma F2R_0 m : F2R m 0 = IZR m.
Proof. unfold F2R. rewrite bpow_0. lra. Qed.

Lemma sgn_cond_Zopp s m e : F2R (cond_Zopp s m) e = (sgn s * F2R m e)%R.
Proof.
  unfold F2R, sgn, cond_Zopp. destruct s; [rewrite opp_IZR|]; lra.
Qed.

Lemma Rabs_le_between (v a : R) : (Rabs v <= a)%R -> (- a <= v <= a)%R.
Proof. unfold Rabs. destruct (Rcase_abs v); lra. Qed.

Lemma Zfloor_div a b : 0 < b -> Zfloor (IZR a / IZR b) = a / b.
Proof.
  intros Hb. apply Zfloor_eq.
  pose proof (Z.mul_div_le a b Hb) as L.
  pose proof (Z.mul_succ_div_gt a b Hb) as U.
  apply IZR_le in L. apply IZR_lt in U. apply IZR_lt in Hb.
  rewrite mult_IZR in L. rewrite mult_IZR in U. unfold Z.succ in U.
  rewrite plus_IZR in U.
  split.
  - apply Rmult_le_reg_r with (IZR b); [lra|].
    unfold Rdiv. rewrite Rmult_assoc, Rinv_l by lra. lra.
  - apply Rmult_lt_reg_r with (IZR b); [lra|].
    unfold Rdiv. rewrite Rmult_assoc, Rinv_l by lra. lra.
Qed.

Lemma Zfloor_half z : Zfloor (IZR z + 1 / 2) = z.
Proof. apply Zfloor_eq. lra. Qed.

(** ** Binary digits *)

Lemma digits2_pos_bounds p :
  2 ^ (Z.pos (digits2_pos p) - 1) <= Z.pos p < 2 ^ Z.pos (digits2_pos p).
Proof.
  induction p as [p IH|p IH|]; simpl digits2_pos.
  - rewrite Pos2Z.inj_succ.
    replace (Z.succ (Z.pos (digits2_pos p)) - 1)
      with (Z.succ (Z.pos (digits2_pos p) - 1)) by lia.
    rewrite !Z.pow_succ_r by lia. lia.
  - rewrite Pos2Z.inj_succ.
    replace (Z.succ (Z.pos (digits2_pos p)) - 1)
      with (Z.succ (Z.pos (digits2_pos p) - 1)) by lia.
    rewrite !Z.pow_succ_r by lia. lia.
  - simpl. lia.
Qed.

Lemma Zdigits2_bounds m :
  0 < m -> 2 ^ (Zdigits2 m - 1) <= m < 2 ^ Zdigits2 m.
Proof.
  destruct m as [|p|p]; try lia. intros _. apply digits2_pos_bounds.
Qed.

Lemma Zdigits2_pos m : 0 < m -> 0 < Zdigits2 m.
Proof. destruct m; simpl; lia. Qed.

Lemma Zdigits2_unique m d :
  0 < d -> 2 ^ (d - 1) <= m < 2 ^ d -> Zdigits2 m = d.
Proof.
  intros Hd [Hlo Hhi].
  assert (Hm : 0 < m) by (pose proof (Z.pow_pos_nonneg 2 (d - 1)); lia).
  pose proof (Zdigits2_bounds m Hm) as [Blo Bhi].
  pose proof (Zdigits2_pos m Hm) as Hp.
  destruct (Z.lt_trichotomy (Zdigits2 m) d) as [L|[E|L]]; [|exact E|].
  - assert (2 ^ Zdigits2 m <= 2 ^ (d - 1)) by (apply Z.pow_le_mono_r; lia). lia.
  - assert (2 ^ d <= 2 ^ (Zdigits2 m - 1)) by (apply Z.pow_le_mono_r; lia). lia.
Qed.

Lemma Zdigits2_mul_pow2 m k :
  0 < m -> 0 <= k -> Zdigits2 (m * 2 ^ k) = Zdigits2 m + k.
Proof.
  intros Hm Hk.
  pose proof (Zdigits2_bounds m Hm) as [Blo Bhi].
  pose proof (Zdigits2_pos m Hm) as Hp.
  apply Zdigits2_unique; [lia|].
  replace (Zdigits2 m + k - 1) with ((Zdigits2 m - 1) + k) by lia.
  rewrite !Z.pow_add_r by lia.
  pose proof (Z.pow_pos_nonneg 2 k). nia.
Qed.

Lemma Zdigits2_le_of_lt_pow m n : 0 < m -> 0 <= n -> m < 2 ^ n -> Zdigits2 m <= n.
Proof.
  intros Hm Hn Hlt.
  pose proof (Zdigits2_bounds m Hm) as [Blo _].
  pose proof (Zdigits2_pos m Hm).
  destruct (Z_lt_le_dec n (Zdigits2 m)) as [L|L]; [|exact L].
  assert (2 ^ n <= 2 ^ (Zdigits2 m - 1)) by (apply Z.pow_le_mono_r; lia). lia.
Qed.

Lemma Zdigits2_gt_of_le_pow m n : 0 <= n -> 2 ^ n <= m -> n < Zdigits2 m.
Proof.
  intros Hn Hle.
  assert (Hm : 0 < m) by (pose proof (Z.pow_pos_nonneg 2 n); lia).
  pose proof (Zdigits2_bounds m Hm) as [_ Bhi].
  pose proof (Zdigits2_pos m Hm).
  destruct (Z_lt_le_dec n (Zdigits2 m)) as [L|L]; [exact L|].
  assert (2 ^ Zdigits2 m <= 2 ^ n) by (apply Z.pow_le_mono_r; lia). lia.
Qed.

Lemma Zdigits2_mul_ge m1 m2 :
  0 < m1 -> 0 < m2 -> Zdigits2 m1 + Zdigits2 m2 - 1 <= Zdigits2 (m1 * m2).
Proof.
  intros H1 H2.
  pose proof (Zdigits2_bounds m1 H1) as [L1 _].
  pose proof (Zdigits2_bounds m2 H2) as [L2 _].
  pose proof (Zdigits2_pos m1 H1). pose proof (Zdigits2_pos m2 H2).
  assert (L : 2 ^ (Zdigits2 m1 + Zdigits2 m2 - 2) <= m1 * m2).
  { replace (Zdigits2 m1 + Zdigits2 m2 - 2)
      with ((Zdigits2 m1 - 1) + (Zdigits2 m2 - 1)) by lia.
    rewrite Z.pow_add_r by lia.
    pose proof (Z.pow_pos_nonneg 2 (Zdigits2 m1 - 1)).
    pose proof (Z.pow_pos_nonneg 2 (Zdigits2 m2 - 1)). nia. }
  apply Zdigits2_gt_of_le_pow in L; lia.
Qed.

(** The magnitude bounds of a positive [m * 2^e]. *)
Lemma F2R_mag m e :
  0 < m ->
  (bpow (Zdigits2 m + e - 1) <= F2R m e < bpow (Zdigits2 m + e))%R.
Proof.
  intros Hm.
  pose proof (Zdigits2_bounds m Hm) as [Blo Bhi].
  pose proof (Zdigits2_pos m Hm) as Hp.
  apply IZR_le in Blo. apply IZR_lt in Bhi.
  rewrite IZR_pow2 in Blo, Bhi by lia.
  unfold F2R.
  replace (Zdigits2 m + e - 1) with ((Zdigits2 m - 1) + e) by lia.
  rewrite !bpow_add. pose proof (bpow_gt_0 e). split; nra.
Qed.

Lemma F2R_lt_bpow m e n : 0 <= n -> m < 2 ^ n -> (F2R m e < bpow (n + e))%R.
Proof.
  intros Hn Hlt. apply IZR_lt in Hlt. rewrite IZR_pow2 in Hlt by exact Hn.
  unfold F2R. rewrite bpow_add. pose proof (bpow_gt_0 e). nra.
Qed.

Lemma F2R_ge_bpow m e n : 0 <= n -> 2 ^ n <= m -> (bpow (n + e) <= F2R m e)%R.
Proof.
  intros Hn Hle. apply IZR_le in Hle. rewrite IZR_pow2 in Hle by exact Hn.
  unfold F2R. rewrite bpow_add. pose proof (bpow_gt_0 e). nra.
Qed.

(** ** Shifts with a rounding record *)

Lemma shr_inv_0 M : 0 <= M -> shr_inv M 0 (Build_shr_record M false false).
Proof.
  intros HM. split; [exact HM|]. exists 0. cbn [shr_m shr_r shr_s b2z].
  change (2 ^ (0 + 1)) with 2. change (2 ^ 0) with 1.
  split; [lia|]. split; [lia|]. split; [discriminate|lia].
Qed.

Lemma shr_1_m mrs :
  0 <= shr_m mrs ->
  shr_1 mrs
  = Build_shr_record (shr_m mrs / 2) (Z.odd (shr_m mrs))
      (shr_r mrs || shr_s mrs).
Proof.
  destruct mrs as [m r s]. simpl. intros Hm.
  rewrite <- Z.div2_div.
  destruct m as [|[p|p|]|p]; try lia; reflexivity.
Qed.

Lemma shr_inv_step M k mrs :
  0 <= k -> shr_inv M k mrs -> shr_inv M (k + 1) (shr_1 mrs).
Proof.
  intros Hk (Hm & low & Hlow & HM & Hs).
  rewrite shr_1_m by exact Hm. split; cbn [shr_m shr_r shr_s].
  - apply Z.div_pos; lia.
  - exists (b2z (shr_r mrs) * 2 ^ k + low).
    pose proof (Z.pow_pos_nonneg 2 k ltac:(lia) Hk) as Hp.
    rewrite !Z.pow_add_r by lia. change (2 ^ 1) with 2.
    rewrite Z.pow_add_r in HM by lia. change (2 ^ 1) with 2 in HM.
    pose proof (Zdiv2_odd_eqn (shr_m mrs)) as Hodd.
    rewrite Z.div2_div in Hodd.
    fold (b2z (Z.odd (shr_m mrs))) in Hodd.
    assert (Hr : 0 <= b2z (shr_r mrs) <= 1) by (destruct (shr_r mrs); simpl; lia).
    split; [nia|]. split; [nia|].
    destruct (shr_r mrs), (shr_s mrs); cbn [orb b2z] in *; split; intros;
      try lia; try reflexivity; try discriminate.
Qed.

Lemma shr_inv_iter p : forall M k mrs,
  0 <= k -> shr_inv M k mrs -> shr_inv M (k + Z.pos p) (iter_pos shr_1 p mrs).
Proof.
  induction p as [p IH|p IH|]; intros M k mrs Hk Hinv; simpl.
  - replace (k + Z.pos p~1) with (((k + 1) + Z.pos p) + Z.pos p) by lia.
    apply IH; [lia|]. apply IH; [lia|]. now apply shr_inv_step.
  - replace (k + Z.pos p~0) with ((k + Z.pos p) + Z.pos p) by lia.
    apply IH; [lia|]. now apply IH.
  - now apply shr_inv_step.
Qed.

Lemma shr_inv_0_inv M mrs : shr_inv M 0 mrs -> shr_m mrs = M.
Proof.
  intros (_ & low & Hlow & HM & _).
  change (2 ^ (0 + 1)) with 2 in HM. change (2 ^ 0) with 1 in *.
  destruct (shr_r mrs); simpl b2z in HM; lia.
Qed.

Lemma shr_inv_1_even M mrs : shr_inv (2 * M) 1 mrs -> shr_m mrs = M.
Proof.
  intros (_ & low & Hlow & HM & _).
  change (2 ^ (1 + 1)) with 4 in HM. change (2 ^ 1) with 2 in *.
  destruct (shr_r mrs); simpl b2z in HM; lia.
Qed.

Lemma cexp_eq x : cexp x = Z.max (x - 53) (-1074).
Proof. reflexivity. Qed.

Lemma cexp_mono x y : x <= y -> cexp x <= cexp y.
Proof. rewrite !cexp_eq. lia. Qed.

(** [shr_fexp] on an exact mantissa: the shift is by [max 0 (c - e)] bits,
    where [c] is the canonical exponent. *)
Lemma shr_fexp_exact M e :
  0 <= M ->
  let c := fexp prec emax (Zdigits2 M + e) in
  let '(mrs, e') := shr_fexp prec emax M e loc_Exact in
  e' = Z.max e c /\ shr_inv M (e' - e) mrs.
Proof.
  intros HM c. unfold shr_fexp, shr. fold c. simpl shr_record_of_loc.
  destruct (c - e) as [|p|p] eqn:E.
  - split; [lia|]. replace (e - e) with 0 by lia. now apply shr_inv_0.
  - split; [lia|]. replace (e + Z.pos p - e) with (0 + Z.pos p) by lia.
    apply shr_inv_iter; [lia|]. now apply shr_inv_0.
  - split; [lia|]. replace (e - e) with 0 by lia. now apply shr_inv_0.
Qed.

Lemma Pos_iter_xO m d : Z.pos (Pos.iter xO m d) = Z.pos m * 2 ^ Z.pos d.
Proof.
  induction d as [|d IH] using Pos.peano_ind.
  - simpl. lia.
  - rewrite Pos.iter_succ, Pos2Z.inj_xO, IH, Pos2Z.inj_succ.
    rewrite Z.pow_succ_r by lia. lia.
Qed.

Lemma shl_align_spec m e e' :
  let '(m', e'') := shl_align m e e' in
  e'' = Z.min e e' /\ Z.pos m' = Z.pos m * 2 ^ (e - e'').
Proof.
  unfold shl_align. destruct (e' - e) as [|p|p] eqn:E.
  - split; [lia|]. replace (e - e) with 0 by lia. simpl. lia.
  - split; [lia|]. replace (e - e) with 0 by lia. simpl. lia.
  - split; [lia|]. rewrite Pos_iter_xO. f_equal. f_equal. lia.
Qed.

Lemma shl_align_fst m e ez :
  ez <= e -> Z.pos (fst (shl_align m e ez)) = Z.pos m * 2 ^ (e - ez).
Proof.
  intros H. pose proof (shl_align_spec m e ez) as S.
  destruct (shl_align m e ez) as [m' e']. destruct S as [E1 E2].
  simpl fst. rewrite E2. f_equal. f_equal. lia.
Qed.

(** ** Rounding to nearest, ties to even *)

Lemma round_nearest_even_spec M k mrs :
  0 <= k -> shr_inv M k mrs ->
  let m' := round_nearest_even (shr_m mrs) (loc_of_shr_record mrs) in
  nearest_even (2 * M) (2 ^ (k + 1)) m'
  /\ shr_m mrs <= m' <= shr_m mrs + 1
  /\ (m' = 0 -> 2 * M <= 2 ^ k).
Proof.
  intros Hk (Hm & low & Hlow & HM & Hs).
  pose proof (Z.pow_pos_nonneg 2 k ltac:(lia) Hk) as Hp.
  rewrite Z.pow_add_r in * by lia. change (2 ^ 1) with 2 in *.
  destruct mrs as [m r s]. cbn [shr_m shr_r shr_s] in *. unfold nearest_even.
  destruct r, s; cbn [loc_of_shr_record round_nearest_even b2z] in *.
  - assert (low <> 0) by (now apply Hs). repeat split; try lia.
  - assert (low = 0).
    { destruct (Z.eq_dec low 0) as [E|E]; [exact E|].
      destruct Hs as [_ Hs]. now specialize (Hs E). }
    subst low.
    destruct (Z.even m) eqn:Ev.
    + repeat split; try lia. intros _. exact Ev.
    + repeat split; try lia. intros _.
      rewrite Z.even_add, Ev. reflexivity.
  - assert (low <> 0) by (now apply Hs). repeat split; try lia.
  - assert (low = 0).
    { destruct (Z.eq_dec low 0) as [E|E]; [exact E|].
      destruct Hs as [_ Hs]. now specialize (Hs E). }
    subst low. repeat split; try lia.
Qed.

Lemma nearest_even_upper M d k m1 :
  0 <= k -> 0 < M < 2 ^ d -> 0 <= d ->
  nearest_even (2 * M) (2 ^ (k + 1)) m1 ->
  0 <= m1 /\ (k <= d -> m1 <= 2 ^ (d - k)) /\ (d < k -> m1 = 0).
Proof.
  intros Hk HM Hd [Hne _].
  pose proof (Z.pow_pos_nonneg 2 k ltac:(lia) Hk) as Hp.
  rewrite Z.pow_add_r in Hne by lia. change (2 ^ 1) with 2 in Hne.
  split; [nia|]. split.
  - intros Hkd.
    assert (E : 2 ^ d = 2 ^ (d - k) * 2 ^ k)
      by (rewrite <- Z.pow_add_r by lia; f_equal; lia).
    pose proof (Z.pow_pos_nonneg 2 (d - k) ltac:(lia) ltac:(lia)). nia.
  - intros Hdk.
    assert (E : 2 ^ k = 2 ^ (k - d - 1) * 2 * 2 ^ d).
    { replace k with ((k - d - 1) + 1 + d) at 1 by lia.
      rewrite !Z.pow_add_r by lia. reflexivity. }
    pose proof (Z.pow_pos_nonneg 2 (k - d - 1) ltac:(lia) ltac:(lia)). nia.
Qed.

Lemma nearest_even_lower M d k m1 :
  0 <= k -> 2 ^ (d - 1) <= M -> k <= d - 1 ->
  nearest_even (2 * M) (2 ^ (k + 1)) m1 ->
  2 ^ (d - 1 - k) <= m1.
Proof.
  intros Hk HM Hd [Hne _].
  pose proof (Z.pow_pos_nonneg 2 k ltac:(lia) Hk) as Hp.
  rewrite Z.pow_add_r in Hne by lia. change (2 ^ 1) with 2 in Hne.
  assert (E : 2 ^ (d - 1) = 2 ^ (d - 1 - k) * 2 ^ k)
    by (rewrite <- Z.pow_add_r by lia; f_equal; lia).
  pose proof (Z.pow_pos_nonneg 2 (d - 1 - k) ltac:(lia) ltac:(lia)). nia.
Qed.

(** The result of [binary_round_aux] on an exact mantissa with enough
    digits: a valid float of the given sign whose value is the mantissa
    rounded to nearest-even at the canonical exponent, capped at [2^1024]. *)
Lemma binary_round_aux_exact s M e :
  0 < M ->
  let c := cexp (Zdigits2 M + e) in
  e <= c ->
  exists m1,
    nearest_even (2 * M) (2 ^ (c - e + 1)) m1 /\ 0 <= m1 /\
    let r := binary_round_aux prec emax s M e loc_Exact in
    valid r /\ SFis_nan r = false /\ SFsign r = s
    /\ SFx r = (sgn s * Rmin (F2R m1 c) (bpow 1024))%R.
Proof.
  intros HM c Hec.
  set (d := Zdigits2 M).
  pose proof (Zdigits2_bounds M HM) as [Dlo Dhi]. fold d in Dlo, Dhi.
  pose proof (Zdigits2_pos M HM) as Dpos. fold d in Dpos.
  assert (Hc : c = Z.max (d + e - 53) (-1074)) by reflexivity.
  unfold binary_round_aux.
  pose proof (shr_fexp_exact M e (Z.lt_le_incl _ _ HM)) as H1.
  cbv zeta in H1. fold d c in H1.
  destruct (shr_fexp prec emax M e loc_Exact) as [mrs e'].
  destruct H1 as [He' Hinv]. rewrite Z.max_r in He' by exact Hec. subst e'.
  set (k := c - e) in *. assert (Hk : 0 <= k) by (unfold k; lia).
  destruct (round_nearest_even_spec M k mrs Hk Hinv) as (Hne & _ & _).
  set (m1 := round_nearest_even (shr_m mrs) (loc_of_shr_record mrs)) in *.
  destruct (nearest_even_upper M d k m1 Hk (conj HM Dhi) ltac:(lia) Hne)
    as (Hm1 & Hup & Hup0).
  exists m1. split; [exact Hne|]. split; [exact Hm1|].
  change (cexp (d + e)) with c in *.
  pose proof (shr_fexp_exact m1 c Hm1) as H2. cbv zeta in H2.
  destruct (shr_fexp prec emax m1 c loc_Exact) as [mrs2 e2].
  destruct H2 as [He2 Hinv2]. cbv beta iota zeta.
  destruct (Z.eq_dec m1 0) as [Z1|NZ1].
  - (* the mantissa rounds to zero *)
    rewrite Z1 in He2, Hinv2. simpl Zdigits2 in He2.
    assert (E2 : e2 = c) by (rewrite cexp_eq in He2; lia). clear He2. subst e2.
    replace (c - c) with 0 in Hinv2 by lia.
    rewrite (shr_inv_0_inv _ _ Hinv2). rewrite Z1.
    repeat split. cbn [SFx]. unfold F2R. simpl IZR.
    rewrite Rmult_0_l. rewrite Rmin_left by (pose proof (bpow_gt_0 1024); lra).
    lra.
  - assert (Pm1 : 0 < m1) by lia.
    assert (Hkd : k <= d) by (destruct (Z_lt_le_dec d k); [lia|lia]).
    specialize (Hup Hkd).
    set (d1 := Zdigits2 m1) in *.
    pose proof (Zdigits2_bounds m1 Pm1) as [D1lo D1hi]. fold d1 in D1lo, D1hi.
    pose proof (Zdigits2_pos m1 Pm1) as D1pos. fold d1 in D1pos.
    assert (Hd1 : d1 <= d - k + 1).
    { apply Zdigits2_le_of_lt_pow; try lia.
      rewrite Z.pow_add_r by lia. change (2 ^ 1) with 2.
      pose proof (Z.pow_pos_nonneg 2 (d - k)). lia. }
    (* in the normal range the rounded mantissa has 53 digits or more *)
    assert (Hnorm : -1074 < c -> 2 ^ 52 <= m1).
    { intros Hn. assert (Ek : k = d - 53) by (unfold k; lia).
      pose proof (nearest_even_lower M d k m1 Hk Dlo ltac:(lia) Hne) as L.
      replace (d - 1 - k) with 52 in L by lia. exact L. }
    rewrite cexp_eq in He2. fold d1 in He2.
    destruct (Z_le_gt_dec (Z.max (d1 + c - 53) (-1074)) c) as [Hle|Hgt].
    + (* no carry *)
      assert (E2 : e2 = c) by lia. clear He2. subst e2.
      replace (c - c) with 0 in Hinv2 by lia.
      rewrite (shr_inv_0_inv _ _ Hinv2).
      destruct m1 as [|p1|p1]; try lia.
      assert (Hd53 : d1 <= 53) by lia.
      assert (Hlt53 : Z.pos p1 < 2 ^ 53).
      { apply Z.lt_le_trans with (2 ^ d1); [exact D1hi|].
        apply Z.pow_le_mono_r; lia. }
      destruct (Z.leb_spec c (emax - prec)) as [Hfin|Hinf].
      * change (emax - prec) with 971 in Hfin.
        assert (Hcan : Z.max (d1 + c - 53) (-1074) = c).
        { destruct (Z.eq_dec c (-1074)) as [->|Hn]; [lia|].
          specialize (Hnorm ltac:(lia)).
          pose proof (Zdigits2_gt_of_le_pow _ 52 ltac:(lia) Hnorm).
          fold d1 in H. lia. }
        split.
        { unfold valid_binary, bounded, canonical_mantissa.
          change (Z.pos (digits2_pos p1)) with d1.
          rewrite cexp_eq, Hcan, Z.eqb_refl.
          apply Z.leb_le. exact Hfin. }
        repeat split. cbn [SFx]. rewrite sgn_cond_Zopp.
        rewrite Rmin_left; [reflexivity|].
        pose proof (F2R_lt_bpow _ c 53 ltac:(lia) Hlt53) as B.
        pose proof (bpow_le (53 + c) 1024 ltac:(lia)). lra.
      * change (emax - prec) with 971 in Hinf.
        repeat split. cbn [SFx].
        specialize (Hnorm ltac:(lia)).
        pose proof (F2R_ge_bpow _ c 52 ltac:(lia) Hnorm) as B.
        pose proof (bpow_le 1024 (52 + c) ltac:(lia)).
        rewrite Rmin_right by lra. unfold sgn. destruct s; lra.
    + (* carry: the rounded mantissa is 2^53 *)
      assert (E2 : e2 = c + 1) by lia.
      assert (Ec : c = d + e - 53) by lia.
      assert (Ek : d - k = 53) by (unfold k; lia).
      assert (Ed1 : d1 = 54) by lia.
      assert (Em1 : m1 = 2 * 2 ^ 52).
      { rewrite Ek in Hup. rewrite Ed1 in D1lo.
        change (2 ^ (54 - 1)) with (2 ^ 53) in D1lo.
        change (2 ^ 53) with (2 * 2 ^ 52) in *. lia. }
      clear He2. subst e2. replace (c + 1 - c) with 1 in Hinv2 by lia.
      rewrite Em1 in Hinv2. rewrite (shr_inv_1_even _ _ Hinv2).
      change (2 ^ 52) with (Z.pos (2 ^ 52)%positive).
      destruct (Z.leb_spec (c + 1) (emax - prec)) as [Hfin|Hinf].
      * change (emax - prec) with 971 in Hfin.
        split.
        { unfold valid_binary, bounded, canonical_mantissa.
          change (Z.pos (digits2_pos (2 ^ 52))) with 53.
          rewrite cexp_eq.
          replace (Z.max (53 + (c + 1) - 53) (-1074)) with (c + 1) by lia.
          rewrite Z.eqb_refl. apply Z.leb_le. exact Hfin. }
        repeat split. cbn [SFx]. rewrite sgn_cond_Zopp.
        assert (EV : F2R (Z.pos (2 ^ 52)) (c + 1) = F2R m1 c).
        { rewrite Em1. rewrite <- (F2R_shift (Z.pos (2 ^ 52)) (c + 1) 1) by lia.
          f_equal; lia. }
        rewrite EV. rewrite Rmin_left; [reflexivity|].
        assert (m1 < 2 ^ 54) by (rewrite Em1; reflexivity).
        pose proof (F2R_lt_bpow _ c 54 ltac:(lia) H) as B.
        pose proof (bpow_le (54 + c) 1024 ltac:(lia)). lra.
      * change (emax - prec) with 971 in Hinf.
        repeat split. cbn [SFx].
        assert (2 ^ 53 <= m1) by (rewrite Em1; lia).
        pose proof (F2R_ge_bpow _ c 53 ltac:(lia) H) as B.
        pose proof (bpow_le 1024 (53 + c) ltac:(lia)).
        rewrite Rmin_right by lra. unfold sgn. destruct s; lra.
Qed.

Lemma nearest_even_R M e c m :
  e <= c ->
  nearest_even (2 * M) (2 ^ (c - e + 1)) m ->
  (Rabs (F2R m c - F2R M e) <= bpow c / 2)%R
  /\ (Rabs (F2R m c - F2R M e) = (bpow c / 2)%R -> Z.even m = true).
Proof.
  intros Hec [Hne Htie].
  set (k := c - e) in *. assert (Hk : 0 <= k) by (unfold k; lia).
  rewrite Z.pow_add_r in Hne, Htie by lia. change (2 ^ 1) with 2 in Hne, Htie.
  pose proof (Z.pow_pos_nonneg 2 k ltac:(lia) Hk) as Hp.
  set (z := m * 2 ^ k - M).
  assert (Hz : 2 * Z.abs z <= 2 ^ k) by (unfold z; lia).
  assert (Ez : (F2R m c - F2R M e = IZR z * bpow e)%R).
  { unfold z, F2R. rewrite minus_IZR, mult_IZR, IZR_pow2 by exact Hk.
    replace c with (k + e) by (unfold k; lia). rewrite bpow_add. lra. }
  assert (Ec : (bpow c = IZR (2 ^ k) * bpow e)%R).
  { rewrite IZR_pow2 by exact Hk. rewrite <- bpow_add. f_equal. unfold k. lia. }
  pose proof (bpow_gt_0 e) as He.
  rewrite Ez, Rabs_mult, (Rabs_pos_eq (bpow e)) by lra.
  rewrite <- abs_IZR, Ec.
  split.
  - apply IZR_le in Hz. rewrite mult_IZR in Hz. nra.
  - intros Heq. apply Htie.
    assert (E : (IZR (2 * Z.abs z) = IZR (2 ^ k))%R) by (rewrite mult_IZR; nra).
    apply eq_IZR in E. unfold z in E. lia.
Qed.

Lemma nearest_even_mono M1 e1 m1 M2 e2 m2 :
  0 < M1 -> 0 < M2 ->
  let c1 := cexp (Zdigits2 M1 + e1) in
  let c2 := cexp (Zdigits2 M2 + e2) in
  e1 <= c1 -> e2 <= c2 ->
  nearest_even (2 * M1) (2 ^ (c1 - e1 + 1)) m1 ->
  nearest_even (2 * M2) (2 ^ (c2 - e2 + 1)) m2 ->
  (F2R M1 e1 <= F2R M2 e2)%R ->
  (F2R m1 c1 <= F2R m2 c2)%R.
Proof.
  intros HM1 HM2 c1 c2 H1 H2 N1 N2 Hle.
  set (d1 := Zdigits2 M1) in *. set (d2 := Zdigits2 M2) in *.
  pose proof (Zdigits2_bounds M1 HM1) as [D1lo D1hi]. fold d1 in D1lo, D1hi.
  pose proof (Zdigits2_bounds M2 HM2) as [D2lo D2hi]. fold d2 in D2lo, D2hi.
  pose proof (Zdigits2_pos M1 HM1) as D1pos. fold d1 in D1pos.
  pose proof (Zdigits2_pos M2 HM2) as D2pos. fold d2 in D2pos.
  pose proof (F2R_mag M1 e1 HM1) as [G1lo G1hi]. fold d1 in G1lo, G1hi.
  pose proof (F2R_mag M2 e2 HM2) as [G2lo G2hi]. fold d2 in G2lo, G2hi.
  assert (Hmag : d1 + e1 <= d2 + e2).
  { assert (d1 + e1 - 1 < d2 + e2) by (apply bpow_lt_inv; lra). lia. }
  assert (Hc1 : c1 = Z.max (d1 + e1 - 53) (-1074)) by reflexivity.
  assert (Hc2 : c2 = Z.max (d2 + e2 - 53) (-1074)) by reflexivity.
  assert (Hk1 : 0 <= c1 - e1) by lia. assert (Hk2 : 0 <= c2 - e2) by lia.
  destruct (nearest_even_upper M1 d1 (c1 - e1) m1 Hk1 (conj HM1 D1hi)
              ltac:(lia) N1) as (P1 & U1 & U1').
  destruct (nearest_even_upper M2 d2 (c2 - e2) m2 Hk2 (conj HM2 D2hi)
              ltac:(lia) N2) as (P2 & _ & _).
  assert (V2 : (0 <= F2R m2 c2)%R).
  { unfold F2R. apply IZR_le in P2. pose proof (bpow_gt_0 c2). nra. }
  destruct (Z.eq_dec c1 c2) as [Ec|Nc].
  - (* same grid *)
    destruct (nearest_even_R M1 e1 c1 m1 H1 N1) as [R1 T1].
    destruct (nearest_even_R M2 e2 c2 m2 H2 N2) as [R2 T2].
    rewrite <- Ec in *. clearbody c1. clear Hc1 Hc2.
    pose proof (bpow_gt_0 c1) as Hg.
    destruct (Z_le_gt_dec m1 m2) as [L|G].
    + unfold F2R. apply IZR_le in L. nra.
    + exfalso.
      assert (G' : (IZR m2 + 1 <= IZR m1)%R)
        by (rewrite <- plus_IZR; apply IZR_le; lia).
      set (x1 := F2R M1 e1) in *. set (x2 := F2R M2 e2) in *.
      unfold F2R in R1, R2, T1, T2.
      apply Rabs_le_between in R1, R2.
      assert (Hp : ((IZR m2 + 1) * bpow c1 <= IZR m1 * bpow c1)%R) by nra.
      assert (E1 : (IZR m1 * bpow c1 - x1 = bpow c1 / 2)%R) by lra.
      assert (E2 : (IZR m2 * bpow c1 - x2 = - (bpow c1 / 2))%R) by lra.
      assert (Em : (IZR m1 = IZR m2 + 1)%R) by nra.
      rewrite <- plus_IZR in Em. apply eq_IZR in Em.
      assert (Ev1 : Z.even m1 = true).
      { apply T1. rewrite E1. apply Rabs_pos_eq. lra. }
      assert (Ev2 : Z.even m2 = true).
      { apply T2. rewrite E2, Rabs_Ropp. apply Rabs_pos_eq. lra. }
      rewrite Em, Z.even_add, Ev2 in Ev1. discriminate.
  - assert (Hlt : c1 < c2) by lia.
    (* the first value is at most 2^mag1, the second at least 2^(mag2-1) *)
    assert (B1 : (F2R m1 c1 <= bpow (d1 + e1))%R).
    { destruct (Z_lt_le_dec d1 (c1 - e1)) as [Lk|Lk].
      - rewrite (U1' Lk). unfold F2R. rewrite Rmult_0_l.
        pose proof (bpow_gt_0 (d1 + e1)). lra.
      - specialize (U1 Lk). apply IZR_le in U1.
        rewrite IZR_pow2 in U1 by lia. unfold F2R.
        replace (d1 + e1) with ((d1 - (c1 - e1)) + c1) by lia.
        rewrite bpow_add. pose proof (bpow_gt_0 c1). nra. }
    assert (B2 : (bpow (d2 + e2 - 1) <= F2R m2 c2)%R).
    { assert (Ek : c2 - e2 = d2 - 53) by lia.
      pose proof (nearest_even_lower M2 d2 (c2 - e2) m2 Hk2 D2lo ltac:(lia) N2) as L.
      pose proof (F2R_ge_bpow m2 c2 (d2 - 1 - (c2 - e2)) ltac:(lia) L) as B.
      replace (d2 - 1 - (c2 - e2) + c2) with (d2 + e2 - 1) in B by lia.
      exact B. }
    pose proof (bpow_le (d1 + e1) (d2 + e2 - 1) ltac:(lia)). lra.
Qed.

(** ** The order of valid floats *)

Lemma valid_finite_inv s m e :
  valid (S754_finite s m e) ->
  cexp (Z.pos (digits2_pos m) + e) = e /\ e <= 971.
Proof.
  unfold SpecFloat.valid_binary, bounded, canonical_mantissa.
  intros H. apply andb_prop in H. destruct H as [H1 H2].
  apply Z.eqb_eq in H1. apply Z.leb_le in H2.
  change (emax - prec) with 971 in H2. now split.
Qed.

Lemma valid_finite_bounds s m e :
  valid (S754_finite s m e) ->
  (0 < F2R (Z.pos m) e < bpow 1024)%R.
Proof.
  intros H. destruct (valid_finite_inv s m e H) as [Hc He].
  rewrite cexp_eq in Hc.
  pose proof (F2R_mag (Z.pos m) e ltac:(lia)) as [Glo Ghi].
  simpl Zdigits2 in Glo, Ghi.
  pose proof (bpow_gt_0 (Z.pos (digits2_pos m) + e - 1)).
  pose proof (bpow_le (Z.pos (digits2_pos m) + e) 1024 ltac:(lia)).
  lra.
Qed.

Lemma compare_finite_pos m1 e1 m2 e2 :
  valid (S754_finite false m1 e1) -> valid (S754_finite false m2 e2) ->
  match
    match e1 ?= e2 with
    | Lt => Lt
    | Gt => Gt
    | Eq => Pos.compare_cont Eq m1 m2
    end
  with
  | Lt => (F2R (Z.pos m1) e1 < F2R (Z.pos m2) e2)%R
  | Eq => F2R (Z.pos m1) e1 = F2R (Z.pos m2) e2
  | Gt => (F2R (Z.pos m2) e2 < F2R (Z.pos m1) e1)%R
  end.
Proof.
  intros V1 V2.
  destruct (valid_finite_inv _ _ _ V1) as [C1 _].
  destruct (valid_finite_inv _ _ _ V2) as [C2 _].
  rewrite cexp_eq in C1, C2.
  pose proof (F2R_mag (Z.pos m1) e1 ltac:(lia)) as [G1lo G1hi].
  pose proof (F2R_mag (Z.pos m2) e2 ltac:(lia)) as [G2lo G2hi].
  simpl Zdigits2 in *.
  destruct (Z.compare_spec e1 e2) as [E|L|G].
  - subst e2. change (Pos.compare_cont Eq m1 m2) with (Pos.compare m1 m2).
    pose proof (bpow_gt_0 e1). unfold F2R.
    destruct (Pos.compare_spec m1 m2) as [E|L|G].
    + now subst.
    + apply Rmult_lt_compat_r; [lra|]. apply IZR_lt. lia.
    + apply Rmult_lt_compat_r; [lra|]. apply IZR_lt. lia.
  - pose proof (bpow_le (Z.pos (digits2_pos m1) + e1)
                  (Z.pos (digits2_pos m2) + e2 - 1) ltac:(lia)). lra.
  - pose proof (bpow_le (Z.pos (digits2_pos m2) + e2)
                  (Z.pos (digits2_pos m1) + e1 - 1) ltac:(lia)). lra.
Qed.

Lemma SFcompare_spec x y :
  valid x -> valid y -> SFis_nan x = false -> SFis_nan y = false ->
  match SFcompare x y with
  | Some Lt => (SFx x < SFx y)%R
  | Some Eq => SFx x = SFx y
  | Some Gt => (SFx y < SFx x)%R
  | None => False
  end.
Proof.
  intros Vx Vy Nx Ny.
  pose proof (bpow_gt_0 1024) as Hinf.
  destruct x as [sx|sx| |sx mx ex], y as [sy|sy| |sy my ey];
    try discriminate; cbn [SFcompare SFx];
    try (pose proof (valid_finite_bounds _ _ _ Vx) as Bx);
    try (pose proof (valid_finite_bounds _ _ _ Vy) as By);
    rewrite ?sgn_cond_Zopp; unfold sgn.
  - reflexivity.
  - destruct sy; lra.
  - destruct sy; lra.
  - destruct sx; lra.
  - destruct sx, sy; lra.
  - destruct sx, sy; lra.
  - destruct sx; lra.
  - destruct sx, sy; lra.
  - destruct sx, sy; try lra.
    + assert (Vx' : valid (S754_finite false mx ex)) by exact Vx.
      assert (Vy' : valid (S754_finite false my ey)) by exact Vy.
      pose proof (compare_finite_pos mx ex my ey Vx' Vy') as H.
      destruct (ex ?= ey); [destruct (Pos.compare_cont Eq mx my)| |];
        simpl CompOpp; lra.
    + assert (Vx' : valid (S754_finite false mx ex)) by exact Vx.
      assert (Vy' : valid (S754_finite false my ey)) by exact Vy.
      pose proof (compare_finite_pos mx ex my ey Vx' Vy') as H.
      destruct (ex ?= ey); [destruct (Pos.compare_cont Eq mx my)| |]; lra.
Qed.

Lemma SFcompare_refl x :
  valid x -> SFis_nan x = false -> SFcompare x x = Some Eq.
Proof.
  intros V N. pose proof (SFcompare_spec x x V V N N) as H.
  destruct (SFcompare x x) as [[| |]|]; try reflexivity; try lra; tauto.
Qed.

Lemma SFleb_iff x y :
  valid x -> valid y -> SFis_nan x = false -> SFis_nan y = false ->
  SFleb x y = true <-> (SFx x <= SFx y)%R.
Proof.
  intros Vx Vy Nx Ny. pose proof (SFcompare_spec x y Vx Vy Nx Ny) as H.
  unfold SFleb. destruct (SFcompare x y) as [[| |]|];
    split; intros; try reflexivity; try discriminate; try lra; tauto.
Qed.

Lemma SFltb_iff x y :
  valid x -> valid y -> SFis_nan x = false -> SFis_nan y = false ->
  SFltb x y = true <-> (SFx x < SFx y)%R.
Proof.
  intros Vx Vy Nx Ny. pose proof (SFcompare_spec x y Vx Vy Nx Ny) as H.
  unfold SFltb. destruct (SFcompare x y) as [[| |]|];
    split; intros; try reflexivity; try discriminate; try lra; tauto.
Qed.

Lemma SFltb_nan_r x : SFltb x S754_nan = false.
Proof. now destruct x. Qed.

Lemma SFx_finite_range x :
  valid x -> SFfinite x = true -> (- bpow 1024 < SFx x < bpow 1024)%R.
Proof.
  intros V F. pose proof (bpow_gt_0 1024).
  destruct x as [s|s| |s m e]; try discriminate; cbn [SFx]; [lra|].
  pose proof (valid_finite_bounds _ _ _ V).
  rewrite sgn_cond_Zopp. unfold sgn. destruct s; lra.
Qed.

Lemma SF_cases x :
  SFis_nan x = false ->
  SFfinite x = true \/ x = S754_infinity false \/ x = S754_infinity true.
Proof. destruct x as [s|[|]| |s m e]; intros; try discriminate; auto. Qed.

Lemma SFx_range x : valid x -> (- bpow 1024 <= SFx x <= bpow 1024)%R.
Proof.
  intros V. pose proof (bpow_gt_0 1024).
  destruct x as [s|[|]| |s m e]; cbn [SFx]; try lra.
  pose proof (SFx_finite_range (S754_finite s m e) V eq_refl) as B.
  cbn [SFx] in B. lra.
Qed.

Lemma SFx_top x :
  valid x -> SFis_nan x = false -> (bpow 1024 <= SFx x)%R ->
  x = S754_infinity false.
Proof.
  intros V N H. pose proof (bpow_gt_0 1024).
  destruct (SF_cases x N) as [F|[->| ->]]; [|reflexivity|cbn [SFx] in H; lra].
  pose proof (SFx_finite_range x V F). lra.
Qed.

Lemma SFx_bottom x :
  valid x -> SFis_nan x = false -> (SFx x <= - bpow 1024)%R ->
  x = S754_infinity true.
Proof.
  intros V N H. pose proof (bpow_gt_0 1024).
  destruct (SF_cases x N) as [F|[->| ->]]; [|cbn [SFx] in H; lra|reflexivity].
  pose proof (SFx_finite_range x V F). lra.
Qed.

Lemma SFx_sign_false x : valid x -> SFsign x = false -> (0 <= SFx x)%R.
Proof.
  intros V S. pose proof (bpow_gt_0 1024).
  destruct x as [s|s| |s m e]; simpl in S; subst; cbn [SFx]; try lra.
  pose proof (valid_finite_bounds _ _ _ V). simpl cond_Zopp. lra.
Qed.

(** ** Rounded results *)

Lemma rounded_pos s x r : rounded s x r -> (0 < x)%R.
Proof.
  intros (M & e & m1 & HM & -> & _). unfold F2R.
  apply IZR_lt in HM. pose proof (bpow_gt_0 e). nra.
Qed.

Lemma binary_round_aux_rounded s M e :
  0 < M -> e <= cexp (Zdigits2 M + e) ->
  rounded s (F2R M e) (binary_round_aux prec emax s M e loc_Exact).
Proof.
  intros HM He.
  destruct (binary_round_aux_exact s M e HM He) as (m1 & Hne & _ & H).
  cbv zeta in H. destruct H as (V & N & S & X).
  exists M, e, m1.
  exact (conj HM (conj eq_refl (conj He (conj Hne (conj V (conj N (conj S X))))))).
Qed.

Lemma binary_round_rounded s m e :
  rounded s (F2R (Z.pos m) e) (binary_round prec emax s m e).
Proof.
  unfold binary_round.
  pose proof (shl_align_spec m e (cexp (Z.pos (digits2_pos m) + e))) as H.
  destruct (shl_align m e (cexp (Z.pos (digits2_pos m) + e))) as [mz ez].
  destruct H as [Hez Hmz].
  assert (Hk : 0 <= e - ez) by lia.
  assert (ED : Zdigits2 (Z.pos mz) + ez = Z.pos (digits2_pos m) + e).
  { rewrite Hmz, Zdigits2_mul_pow2 by lia. simpl Zdigits2. lia. }
  assert (EV : F2R (Z.pos mz) ez = F2R (Z.pos m) e).
  { rewrite Hmz. replace ez with (e - (e - ez)) at 2 by lia.
    now apply F2R_shift. }
  rewrite <- EV. apply binary_round_aux_rounded; [lia|].
  rewrite ED. lia.
Qed.

(** A valid finite float is the rounding of its own value. *)
Lemma rounded_exact s m e :
  valid (S754_finite s m e) ->
  rounded s (F2R (Z.pos m) e) (S754_finite s m e).
Proof.
  intros V. destruct (valid_finite_inv _ _ _ V) as [Hc He].
  exists (Z.pos m), e, (Z.pos m). simpl Zdigits2. rewrite Hc.
  replace (e - e + 1) with 1 by lia. change (2 ^ 1) with 2.
  split; [lia|]. split; [reflexivity|]. split; [lia|].
  split; [unfold nearest_even; lia|].
  split; [exact V|]. split; [reflexivity|]. split; [reflexivity|].
  cbn [SFx]. rewrite sgn_cond_Zopp.
  pose proof (valid_finite_bounds _ _ _ V).
  rewrite Rmin_left by lra. reflexivity.
Qed.

Lemma rounded_mono s1 x1 r1 s2 x2 r2 :
  rounded s1 x1 r1 -> rounded s2 x2 r2 ->
  (sgn s1 * x1 <= sgn s2 * x2)%R ->
  (SFx r1 <= SFx r2)%R.
Proof.
  intros R1 R2 Hle.
  pose proof (rounded_pos _ _ _ R1) as P1.
  pose proof (rounded_pos _ _ _ R2) as P2.
  destruct R1 as (M1 & e1 & m1 & HM1 & E1 & He1 & N1 & _ & _ & _ & V1).
  destruct R2 as (M2 & e2 & m2 & HM2 & E2 & He2 & N2 & _ & _ & _ & V2).
  rewrite V1, V2.
  pose proof (bpow_gt_0 1024) as Hinf.
  assert (Q1 : (0 <= Rmin (F2R m1 (cexp (Zdigits2 M1 + e1))) (bpow 1024))%R).
  { apply Rmin_glb; [|lra].
    destruct (nearest_even_upper M1 (Zdigits2 M1)
                (cexp (Zdigits2 M1 + e1) - e1) m1 ltac:(lia)
                (conj HM1 (proj2 (Zdigits2_bounds M1 HM1)))
                ltac:(pose proof (Zdigits2_pos M1 HM1); lia) N1) as (P & _).
    unfold F2R. apply IZR_le in P.
    pose proof (bpow_gt_0 (cexp (Zdigits2 M1 + e1))). nra. }
  assert (Q2 : (0 <= Rmin (F2R m2 (cexp (Zdigits2 M2 + e2))) (bpow 1024))%R).
  { apply Rmin_glb; [|lra].
    destruct (nearest_even_upper M2 (Zdigits2 M2)
                (cexp (Zdigits2 M2 + e2) - e2) m2 ltac:(lia)
                (conj HM2 (proj2 (Zdigits2_bounds M2 HM2)))
                ltac:(pose proof (Zdigits2_pos M2 HM2); lia) N2) as (P & _).
    unfold F2R. apply IZR_le in P.
    pose proof (bpow_gt_0 (cexp (Zdigits2 M2 + e2))). nra. }
  unfold sgn in *. destruct s1, s2; try lra.
  - assert (L : (F2R M2 e2 <= F2R M1 e1)%R) by lra.
    pose proof (nearest_even_mono M2 e2 m2 M1 e1 m1 HM2 HM1 He2 He1 N2 N1 L) as Hm.
    pose proof (Rle_min_compat_r _ _ (bpow 1024) Hm). lra.
  - assert (L : (F2R M1 e1 <= F2R M2 e2)%R) by lra.
    pose proof (nearest_even_mono M1 e1 m1 M2 e2 m2 HM1 HM2 He1 He2 N1 N2 L) as Hm.
    pose proof (Rle_min_compat_r _ _ (bpow 1024) Hm). lra.
Qed.

Lemma rounded_val s x r :
  rounded s x r ->
  valid r /\ SFis_nan r = false /\ SFsign r = s
  /\ exists v, (0 <= v <= bpow 1024)%R /\ SFx r = (sgn s * v)%R.
Proof.
  intros (M & e & m1 & HM & _ & He & N & V & Nn & S & X).
  repeat split; try assumption. eexists. split; [|exact X].
  pose proof (bpow_gt_0 1024). split; [|apply Rmin_r].
  apply Rmin_glb; [|lra].
  destruct (nearest_even_upper M (Zdigits2 M) (cexp (Zdigits2 M + e) - e) m1
              ltac:(lia) (conj HM (proj2 (Zdigits2_bounds M HM)))
              ltac:(pose proof (Zdigits2_pos M HM); lia) N) as (P & _).
  unfold F2R. apply IZR_le in P.
  pose proof (bpow_gt_0 (cexp (Zdigits2 M + e))). nra.
Qed.

Lemma rounds_to_valid X r :
  rounds_to X r -> valid r /\ SFis_nan r = false.
Proof.
  intros [[_ [s ->]]|(s & x & _ & H)]; [now split|].
  apply rounded_val in H. tauto.
Qed.

Lemma rounds_to_mono X1 r1 X2 r2 :
  rounds_to X1 r1 -> rounds_to X2 r2 -> (X1 <= X2)%R ->
  (SFx r1 <= SFx r2)%R.
Proof.
  intros [[E1 [s1 ->]]|(s1 & x1 & E1 & H1)] [[E2 [s2 ->]]|(s2 & x2 & E2 & H2)]
    Hle; cbn [SFx].
  - lra.
  - pose proof (rounded_pos _ _ _ H2).
    destruct (rounded_val _ _ _ H2) as (_ & _ & _ & v & Hv & ->).
    unfold sgn in *. destruct s2; nra.
  - pose proof (rounded_pos _ _ _ H1).
    destruct (rounded_val _ _ _ H1) as (_ & _ & _ & v & Hv & ->).
    unfold sgn in *. destruct s1; nra.
  - apply (rounded_mono s1 x1 r1 s2 x2 r2 H1 H2). lra.
Qed.

Lemma rounds_to_exact r :
  valid r -> SFfinite r = true -> rounds_to (SFx r) r.
Proof.
  intros V F. destruct r as [s|s| |s m e]; try discriminate.
  - left. split; [reflexivity|]. now exists s.
  - right. exists s, (F2R (Z.pos m) e). split.
    + cbn [SFx]. apply sgn_cond_Zopp.
    + now apply rounded_exact.
Qed.

Lemma binary_normalize_rounds M e :
  rounds_to (F2R M e) (binary_normalize prec emax M e false).
Proof.
  destruct M as [|p|p]; cbn [binary_normalize].
  - left. split; [unfold F2R; simpl; lra|]. now exists false.
  - right. exists false, (F2R (Z.pos p) e). split; [unfold sgn; lra|].
    apply binary_round_rounded.
  - right. exists true, (F2R (Z.pos p) e). split.
    + change (Z.neg p) with (cond_Zopp true (Z.pos p)). apply sgn_cond_Zopp.
    + apply binary_round_rounded.
Qed.

Lemma binary_round_exact s m e :
  cexp (Z.pos (digits2_pos m) + e) <= e ->
  (F2R (Z.pos m) e < bpow 1024)%R ->
  valid (binary_round prec emax s m e)
  /\ SFfinite (binary_round prec emax s m e) = true
  /\ SFx (binary_round prec emax s m e) = (sgn s * F2R (Z.pos m) e)%R.
Proof.
  intros Hc Hlt. unfold binary_round.
  pose proof (shl_align_spec m e (cexp (Z.pos (digits2_pos m) + e))) as H.
  destruct (shl_align m e (cexp (Z.pos (digits2_pos m) + e))) as [mz ez].
  destruct H as [Hez Hmz].
  rewrite Z.min_r in Hez by exact Hc.
  assert (ED : Zdigits2 (Z.pos mz) + ez = Z.pos (digits2_pos m) + e).
  { rewrite Hmz, Zdigits2_mul_pow2 by lia. simpl Zdigits2. lia. }
  assert (EV : F2R (Z.pos mz) ez = F2R (Z.pos m) e).
  { rewrite Hmz. replace ez with (e - (e - ez)) at 2 by lia.
    apply F2R_shift. lia. }
  assert (Ec : cexp (Zdigits2 (Z.pos mz) + ez) = ez) by (rewrite ED; lia).
  destruct (binary_round_aux_exact s (Z.pos mz) ez ltac:(lia)
              ltac:(rewrite Ec; lia)) as (m1 & [Hne _] & _ & V & N & _ & X).
  rewrite Ec in Hne, X. replace (ez - ez + 1) with 1 in Hne by lia.
  change (2 ^ 1) with 2 in Hne.
  assert (E1 : m1 = Z.pos mz) by lia. subst m1.
  rewrite EV in X. rewrite Rmin_left in X by lra.
  split; [exact V|]. split; [|exact X].
  destruct (SF_cases _ N) as [F|[E|E]]; [exact F| |];
    rewrite E in X; cbn [SFx] in X; unfold sgn in X;
    pose proof (bpow_gt_0 1024);
    assert (0 < F2R (Z.pos m) e)%R
      by (unfold F2R; pose proof (bpow_gt_0 e);
          assert (0 < IZR (Z.pos m))%R by (apply IZR_lt; lia); nra);
    destruct s; lra.
Qed.

(** An integer below [2^53] in magnitude is a float. *)
Lemma binary_normalize_int n :
  Z.abs n < 2 ^ 53 ->
  valid (binary_normalize prec emax n 0 false)
  /\ SFfinite (binary_normalize prec emax n 0 false) = true
  /\ SFx (binary_normalize prec emax n 0 false) = IZR n.
Proof.
  intros Hn.
  assert (H : forall s p, Z.pos p < 2 ^ 53 ->
            valid (binary_round prec emax s p 0)
            /\ SFfinite (binary_round prec emax s p 0) = true
            /\ SFx (binary_round prec emax s p 0) = (sgn s * IZR (Z.pos p))%R).
  { intros s p Hp. rewrite <- (F2R_0 (Z.pos p)).
    apply binary_round_exact.
    - pose proof (Zdigits2_le_of_lt_pow (Z.pos p) 53 ltac:(lia) ltac:(lia) Hp) as D.
      simpl Zdigits2 in D. rewrite cexp_eq. lia.
    - pose proof (F2R_lt_bpow (Z.pos p) 0 53 ltac:(lia) Hp) as B.
      pose proof (bpow_le (53 + 0) 1024 ltac:(lia)). lra. }
  destruct n as [|p|p]; cbn [binary_normalize].
  - repeat split.
  - destruct (H false p ltac:(lia)) as (V & F & X).
    repeat split; auto. rewrite X. unfold sgn. lra.
  - destruct (H true p ltac:(lia)) as (V & F & X).
    repeat split; auto. rewrite X. unfold sgn.
    change (Z.neg p) with (- Z.pos p)%Z. rewrite opp_IZR. lra.
Qed.

Lemma binary_normalize_not_neg_zero M e :
  -1074 <= e -> binary_normalize prec emax M e false <> S754_zero true.
Proof.
  intros He. destruct M as [|p|p]; cbn [binary_normalize].
  - discriminate.
  - pose proof (binary_round_rounded false p e) as R.
    apply rounded_val in R. destruct R as (_ & _ & S & _).
    intros E. rewrite E in S. discriminate.
  - pose proof (binary_round_rounded true p e) as R. intros E.
    assert (V : valid (S754_finite true 1 (-1074))) by reflexivity.
    pose proof (rounded_mono _ _ _ _ _ _ R (rounded_exact _ _ _ V)) as M.
    rewrite E in M. cbn [SFx] in M. rewrite sgn_cond_Zopp in M.
    assert (L : (F2R 1 (-1074) <= F2R (Z.pos p) e)%R).
    { unfold F2R. pose proof (bpow_le (-1074) e He) as B.
      pose proof (bpow_gt_0 (-1074)).
      assert (1 <= IZR (Z.pos p))%R by (apply IZR_le; lia). nra. }
    assert (P : (0 < F2R 1 (-1074))%R)
      by (unfold F2R; pose proof (bpow_gt_0 (-1074)); lra).
    unfold sgn in M. lra.
Qed.

(** ** Subtraction and multiplication on the specification *)

Lemma SFsub_rounds a b :
  valid a -> valid b -> SFfinite a = true -> SFfinite b = true ->
  rounds_to (SFx a - SFx b) (SFsub prec emax a b).
Proof.
  intros Va Vb Fa Fb.
  destruct a as [sa|sa| |sa ma ea], b as [sb|sb| |sb mb eb]; try discriminate;
    cbn [SFsub SFx].
  - left. split; [lra|]. destruct sa, sb; eauto.
  - replace (0 - F2R (cond_Zopp sb (Z.pos mb)) eb)%R
      with (SFx (S754_finite (negb sb) mb eb)).
    + apply rounds_to_exact; [exact Vb|reflexivity].
    + cbn [SFx]. rewrite !sgn_cond_Zopp. unfold sgn. destruct sb; simpl; lra.
  - replace (F2R (cond_Zopp sa (Z.pos ma)) ea - 0)%R
      with (SFx (S754_finite sa ma ea)) by (cbn [SFx]; lra).
    apply rounds_to_exact; [exact Va|reflexivity].
  - set (ez := Z.min ea eb).
    match goal with |- rounds_to ?X (binary_normalize _ _ ?M _ _) =>
      replace X with (F2R M ez); [apply binary_normalize_rounds|] end.
    unfold F2R. rewrite minus_IZR.
    assert (E : forall s m e, ez <= e ->
              (IZR (cond_Zopp s (Z.pos (fst (shl_align m e ez)))) * bpow ez
               = IZR (cond_Zopp s (Z.pos m)) * bpow e)%R).
    { intros s m e He. rewrite shl_align_fst by exact He.
      pose proof (F2R_shift (cond_Zopp s (Z.pos m)) e (e - ez) ltac:(lia)) as S.
      unfold F2R in S. replace (e - (e - ez)) with ez in S by lia.
      rewrite <- S. f_equal. f_equal.
      unfold cond_Zopp. destruct s; [rewrite Z.mul_opp_l|]; reflexivity. }
    rewrite Rmult_minus_distr_r.
    rewrite (E sa ma ea), (E sb mb eb) by (unfold ez; lia). reflexivity.
Qed.

Lemma SFmul_rounds a b :
  valid a -> valid b -> SFfinite a = true -> SFfinite b = true ->
  rounds_to (SFx a * SFx b) (SFmul prec emax a b).
Proof.
  intros Va Vb Fa Fb.
  destruct a as [sa|sa| |sa ma ea], b as [sb|sb| |sb mb eb]; try discriminate;
    cbn [SFmul SFx]; try (left; split; [lra|eauto]).
  right. exists (xorb sa sb), (F2R (Z.pos (ma * mb)) (ea + eb)). split.
  - rewrite !sgn_cond_Zopp. unfold F2R.
    rewrite Pos2Z.inj_mul, mult_IZR, bpow_add.
    unfold sgn. destruct sa, sb; simpl; lra.
  - apply binary_round_aux_rounded; [lia|].
    destruct (valid_finite_inv _ _ _ Va) as [Ca _].
    destruct (valid_finite_inv _ _ _ Vb) as [Cb _].
    rewrite cexp_eq in *.
    pose proof (Zdigits2_mul_ge (Z.pos ma) (Z.pos mb) ltac:(lia) ltac:(lia)) as D.
    rewrite Pos2Z.inj_mul. simpl Zdigits2 in D |- *.
    pose proof (Pos2Z.is_pos (digits2_pos ma)).
    pose proof (Pos2Z.is_pos (digits2_pos mb)). lia.
Qed.

Lemma SFsub_inf_l s b :
  SFis_nan (SFsub prec emax (S754_infinity s) b) = false ->
  SFsub prec emax (S754_infinity s) b = S754_infinity s.
Proof. destruct s, b as [?|[|]| |? ? ?]; simpl; intros; try discriminate; reflexivity. Qed.

Lemma SFsub_inf_r a s :
  SFis_nan (SFsub prec emax a (S754_infinity s)) = false ->
  SFsub prec emax a (S754_infinity s) = S754_infinity (negb s).
Proof. destruct s, a as [?|[|]| |? ? ?]; simpl; intros; try discriminate; reflexivity. Qed.

Lemma SFsub_valid a b :
  valid a -> valid b -> valid (SFsub prec emax a b).
Proof.
  intros Va Vb.
  destruct (SFis_nan a) eqn:Na; [destruct a; try discriminate; reflexivity|].
  destruct (SFis_nan b) eqn:Nb;
    [destruct b; try discriminate; destruct a; reflexivity|].
  destruct (SF_cases a Na) as [Fa|[->| ->]];
    [|destruct b as [?|[|]| |? ? ?]; reflexivity ..].
  destruct (SF_cases b Nb) as [Fb|[->| ->]];
    [|destruct a as [?|[|]| |? ? ?]; reflexivity ..].
  apply (rounds_to_valid _ _ (SFsub_rounds a b Va Vb Fa Fb)).
Qed.

(** Subtraction is monotone in its first argument and antitone in its
    second, wherever it yields numbers. *)
Lemma SFsub_mono a b a' b' :
  valid a -> valid b -> valid a' -> valid b' ->
  SFis_nan a = false -> SFis_nan b = false ->
  SFis_nan a' = false -> SFis_nan b' = false ->
  SFis_nan (SFsub prec emax a b) = false ->
  SFis_nan (SFsub prec emax a' b') = false ->
  (SFx a <= SFx a')%R -> (SFx b' <= SFx b)%R ->
  (SFx (SFsub prec emax a b) <= SFx (SFsub prec emax a' b'))%R.
Proof.
  intros Va Vb Va' Vb' Na Nb Na' Nb' Nr Nr' Ha Hb.
  pose proof (bpow_gt_0 1024) as HI.
  pose proof (SFx_range _ (SFsub_valid a b Va Vb)) as Rr.
  pose proof (SFx_range _ (SFsub_valid a' b' Va' Vb')) as Rr'.
  assert (Bot : forall r, r = S754_infinity true -> SFx r = (- bpow 1024)%R)
    by (now intros r ->).
  assert (Top : forall r, r = S754_infinity false -> SFx r = bpow 1024)
    by (now intros r ->).
  destruct (SF_cases a Na) as [Fa|[Ea|Ea]].
  2:{ (* a = +inf, hence a' = +inf *)
      assert (Ea' : a' = S754_infinity false)
        by (apply SFx_top; auto; rewrite Ea in Ha; exact Ha).
      subst a'. rewrite (Top _ (SFsub_inf_l _ _ Nr')). lra. }
  2:{ subst a. rewrite (Bot _ (SFsub_inf_l _ _ Nr)). lra. }
  destruct (SF_cases a' Na') as [Fa'|[Ea'|Ea']].
  2:{ subst a'. rewrite (Top _ (SFsub_inf_l _ _ Nr')). lra. }
  2:{ assert (Ea : a = S754_infinity true)
        by (apply SFx_bottom; auto; rewrite Ea' in Ha; exact Ha).
      subst a. discriminate. }
  destruct (SF_cases b Nb) as [Fb|[Eb|Eb]].
  2:{ subst b. rewrite (Bot _ (SFsub_inf_r _ _ Nr)). lra. }
  2:{ assert (Eb' : b' = S754_infinity true)
        by (apply SFx_bottom; auto; rewrite Eb in Hb; exact Hb).
      subst b'. rewrite (Top _ (SFsub_inf_r _ _ Nr')). lra. }
  destruct (SF_cases b' Nb') as [Fb'|[Eb'|Eb']].
  2:{ assert (Eb : b = S754_infinity false)
        by (apply SFx_top; auto; rewrite Eb' in Hb; exact Hb).
      subst b. discriminate. }
  2:{ subst b'. rewrite (Top _ (SFsub_inf_r _ _ Nr')). lra. }
  apply (rounds_to_mono (SFx a - SFx b) _ (SFx a' - SFx b') _).
  - now apply SFsub_rounds.
  - now apply SFsub_rounds.
  - lra.
Qed.

Lemma SFsub_neg_zero_inv a b :
  valid a -> valid b ->
  SFsub prec emax a b = S754_zero true -> a = S754_zero true.
Proof.
  intros Va Vb.
  destruct a as [sa|sa| |sa ma ea], b as [sb|sb| |sb mb eb]; cbn [SFsub];
    try discriminate;
    try (destruct sa, sb; intros; try discriminate; reflexivity).
  intros E. exfalso.
  revert E. apply binary_normalize_not_neg_zero.
    destruct (valid_finite_inv _ _ _ Va) as [Ca _].
    destruct (valid_finite_inv _ _ _ Vb) as [Cb _].
    rewrite cexp_eq in Ca, Cb. lia.
Qed.

Lemma SFmul_valid a b :
  valid a -> valid b -> valid (SFmul prec emax a b).
Proof.
  intros Va Vb.
  destruct (SFis_nan a) eqn:Na; [destruct a; try discriminate; reflexivity|].
  destruct (SFis_nan b) eqn:Nb;
    [destruct b; try discriminate; destruct a; reflexivity|].
  destruct (SF_cases a Na) as [Fa|[->| ->]];
    [|destruct b as [?|[|]| |? ? ?]; reflexivity ..].
  destruct (SF_cases b Nb) as [Fb|[->| ->]];
    [|destruct a as [?|[|]| |? ? ?]; reflexivity ..].
  apply (rounds_to_valid _ _ (SFmul_rounds a b Va Vb Fa Fb)).
Qed.

(** Multiplication by a positive finite float is monotone and never
    yields NaN on a number. *)
Lemma SFmul_pos_not_nan a c :
  SFis_nan a = false -> valid a -> valid c ->
  SFfinite c = true -> (0 < SFx c)%R ->
  SFis_nan (SFmul prec emax a c) = false.
Proof.
  intros Na Va Vc Fc Pc.
  destruct (SF_cases a Na) as [Fa|[->| ->]].
  - apply (rounds_to_valid _ _ (SFmul_rounds a c Va Vc Fa Fc)).
  - destruct c; try discriminate; [cbn [SFx] in Pc; lra|reflexivity].
  - destruct c; try discriminate; [cbn [SFx] in Pc; lra|reflexivity].
Qed.

Lemma SFmul_inf_pos s c :
  valid c -> SFfinite c = true -> (0 < SFx c)%R ->
  SFmul prec emax (S754_infinity s) c = S754_infinity s.
Proof.
  intros Vc Fc Pc. destruct c as [?|?| |sc mc ec]; try discriminate.
  - cbn [SFx] in Pc. lra.
  - cbn [SFmul]. destruct sc.
    + pose proof (valid_finite_bounds _ _ _ Vc). cbn [SFx] in Pc.
      rewrite sgn_cond_Zopp in Pc. unfold sgn in Pc. lra.
    + now rewrite xorb_false_r.
Qed.

Lemma SFmul_mono_pos a a' c :
  valid a -> valid a' -> valid c ->
  SFis_nan a = false -> SFis_nan a' = false ->
  SFfinite c = true -> (0 < SFx c)%R ->
  (SFx a <= SFx a')%R ->
  (SFx (SFmul prec emax a c) <= SFx (SFmul prec emax a' c))%R.
Proof.
  intros Va Va' Vc Na Na' Fc Pc Ha.
  pose proof (bpow_gt_0 1024) as HI.
  pose proof (SFx_range _ (SFmul_valid a c Va Vc)) as Rr.
  pose proof (SFx_range _ (SFmul_valid a' c Va' Vc)) as Rr'.
  destruct (SF_cases a Na) as [Fa|[Ea|Ea]].
  2:{ assert (Ea' : a' = S754_infinity false)
        by (apply SFx_top; auto; rewrite Ea in Ha; exact Ha).
      subst a a'. lra. }
  2:{ subst a. rewrite SFmul_inf_pos by assumption. cbn [SFx]. lra. }
  destruct (SF_cases a' Na') as [Fa'|[Ea'|Ea']].
  2:{ subst a'. rewrite (SFmul_inf_pos false) by assumption. cbn [SFx]. lra. }
  2:{ assert (Ea : a = S754_infinity true)
        by (apply SFx_bottom; auto; rewrite Ea' in Ha; exact Ha).
      subst a. discriminate. }
  apply (rounds_to_mono (SFx a * SFx c) _ (SFx a' * SFx c) _).
  - now apply SFmul_rounds.
  - now apply SFmul_rounds.
  - nra.
Qed.

Lemma binary_round_aux_sign s m e l :
  SFis_nan (binary_round_aux prec emax s m e l) = true
  \/ SFsign (binary_round_aux prec emax s m e l) = s.
Proof.
  unfold binary_round_aux.
  destruct (shr_fexp prec emax m e l) as [mrs e'].
  destruct (shr_fexp prec emax _ e' loc_Exact) as [mrs2 e2].
  destruct (shr_m mrs2); [right; reflexivity| |left; reflexivity].
  destruct (e2 <=? emax - prec)%Z; right; reflexivity.
Qed.

Lemma SFdiv_sign x y :
  SFis_nan (SFdiv prec emax x y) = true
  \/ SFsign (SFdiv prec emax x y) = xorb (SFsign x) (SFsign y).
Proof.
  destruct x as [sx|sx| |sx mx ex], y as [sy|sy| |sy my ey]; cbn [SFdiv];
    try (left; reflexivity); try (right; reflexivity).
  destruct (SFdiv_core_binary prec emax (Z.pos mx) ex (Z.pos my) ey)
    as [[mz ez] lz].
  apply binary_round_aux_sign.
Qed.

Lemma SFmul_sign x y :
  SFis_nan (SFmul prec emax x y) = true
  \/ SFsign (SFmul prec emax x y) = xorb (SFsign x) (SFsign y).
Proof.
  destruct x as [sx|sx| |sx mx ex], y as [sy|sy| |sy my ey]; cbn [SFmul];
    try (left; reflexivity); try (right; reflexivity).
  apply binary_round_aux_sign.
Qed.

Lemma SFabs_sign x : SFis_nan (SFabs x) = true \/ SFsign (SFabs x) = false.
Proof. destruct x; simpl; auto. Qed.

(** ** Primitive floats *)

Local Open Scope float_scope.

Lemma is_nan_SF a : is_nan a = SFis_nan (Prim2SF a).
Proof.
  unfold is_nan. rewrite eqb_spec. unfold SFeqb.
  destruct (SFis_nan (Prim2SF a)) eqn:N.
  - destruct (Prim2SF a); try discriminate. reflexivity.
  - now rewrite (SFcompare_refl _ (Prim2SF_valid a) N).
Qed.

Lemma is_nan_false_SF a : is_nan a = false -> SFis_nan (Prim2SF a) = false.
Proof. now rewrite is_nan_SF. Qed.

Lemma is_nan_true a : is_nan a = true -> a = nan.
Proof.
  rewrite is_nan_SF. intros H. apply Prim2SF_inj.
  destruct (Prim2SF a); try discriminate. reflexivity.
Qed.

Lemma finite_not_nan a : SFfinite (Prim2SF a) = true -> is_nan a = false.
Proof. rewrite is_nan_SF. destruct (Prim2SF a); auto; discriminate. Qed.

Lemma finite_of_FX a :
  is_nan a = false -> (- bpow 1024 < FX a < bpow 1024)%R ->
  SFfinite (Prim2SF a) = true.
Proof.
  rewrite is_nan_SF. unfold FX. intros N H.
  destruct (SF_cases _ N) as [F|[E|E]]; [exact F| |];
    rewrite E in H; cbn [SFx] in H; lra.
Qed.

Lemma FX_finite a :
  SFfinite (Prim2SF a) = true -> (- bpow 1024 < FX a < bpow 1024)%R.
Proof. apply SFx_finite_range, Prim2SF_valid. Qed.

Lemma FX_range a : (- bpow 1024 <= FX a <= bpow 1024)%R.
Proof. apply SFx_range, Prim2SF_valid. Qed.

Lemma FX_zero_inv a :
  is_nan a = false -> FX a = 0%R -> exists s, Prim2SF a = S754_zero s.
Proof.
  rewrite is_nan_SF. unfold FX. intros N H.
  pose proof (Prim2SF_valid a) as V. pose proof (bpow_gt_0 1024).
  destruct (Prim2SF a) as [s|s| |s m e]; try discriminate.
  - now exists s.
  - cbn [SFx] in H. destruct s; lra.
  - pose proof (valid_finite_bounds _ _ _ V). cbn [SFx] in H.
    rewrite sgn_cond_Zopp in H. unfold sgn in H. destruct s; lra.
Qed.

Lemma ltb_FX a b :
  is_nan a = false -> is_nan b = false ->
  ((a <? b) = true <-> (FX a < FX b)%R).
Proof.
  intros Na Nb. rewrite ltb_spec.
  apply SFltb_iff; auto using Prim2SF_valid, is_nan_false_SF.
Qed.

Lemma leb_FX a b :
  is_nan a = false -> is_nan b = false ->
  ((a <=? b) = true <-> (FX a <= FX b)%R).
Proof.
  intros Na Nb. rewrite leb_spec.
  apply SFleb_iff; auto using Prim2SF_valid, is_nan_false_SF.
Qed.

Lemma ltb_not_nan a b :
  (a <? b) = true -> is_nan a = false /\ is_nan b = false.
Proof.
  rewrite ltb_spec, !is_nan_SF. unfold SFltb.
  destruct (Prim2SF a), (Prim2SF b); simpl; try discriminate; auto.
Qed.

Lemma leb_not_nan a b :
  (a <=? b) = true -> is_nan a = false /\ is_nan b = false.
Proof.
  rewrite leb_spec, !is_nan_SF. unfold SFleb.
  destruct (Prim2SF a), (Prim2SF b); simpl; try discriminate; auto.
Qed.

Lemma ltb_nan_r a : (a <? nan) = false.
Proof. rewrite ltb_spec. apply SFltb_nan_r. Qed.

Lemma ltb_false_of_le a b :
  is_nan a = false -> is_nan b = false -> (FX b <= FX a)%R -> (a <? b) = false.
Proof.
  intros Na Nb H. destruct (a <? b) eqn:E; [|reflexivity].
  apply (ltb_FX a b Na Nb) in E. lra.
Qed.

(** *** Subtraction *)

Lemma sub_not_nan_inv a b :
  is_nan (a - b) = false -> is_nan a = false /\ is_nan b = false.
Proof.
  rewrite !is_nan_SF, sub_spec. unfold SF64sub.
  destruct (Prim2SF a), (Prim2SF b); simpl; auto; discriminate.
Qed.

Lemma sub_mono a b a' b' :
  is_nan (a - b) = false -> is_nan (a' - b') = false ->
  (FX a <= FX a')%R -> (FX b' <= FX b)%R ->
  (FX (a - b) <= FX (a' - b'))%R.
Proof.
  intros N N' Ha Hb.
  destruct (sub_not_nan_inv _ _ N) as [Na Nb].
  destruct (sub_not_nan_inv _ _ N') as [Na' Nb'].
  rewrite is_nan_SF in *. unfold FX in *. rewrite !sub_spec in *.
  apply SFsub_mono; auto using Prim2SF_valid.
Qed.

(** A difference is a number unless it is [inf - inf]. *)
Lemma sub_not_nan a b :
  is_nan a = false -> is_nan b = false ->
  (FX a < bpow 1024 \/ FX b < bpow 1024)%R ->
  (- bpow 1024 < FX a \/ - bpow 1024 < FX b)%R ->
  is_nan (a - b) = false.
Proof.
  rewrite !is_nan_SF, sub_spec. unfold FX, SF64sub.
  intros Na Nb H1 H2. pose proof (bpow_gt_0 1024).
  destruct (SF_cases _ Na) as [Fa|[Ea|Ea]], (SF_cases _ Nb) as [Fb|[Eb|Eb]];
    try rewrite Ea in *; try rewrite Eb in *; cbn [SFx] in *;
    try reflexivity; try lra.
  - apply (rounds_to_valid _ _
             (SFsub_rounds _ _ (Prim2SF_valid a) (Prim2SF_valid b) Fa Fb)).
  - destruct (Prim2SF a); try discriminate; reflexivity.
  - destruct (Prim2SF a); try discriminate; reflexivity.
  - destruct (Prim2SF b); try discriminate; reflexivity.
  - destruct (Prim2SF b); try discriminate; reflexivity.
Qed.

(** Subtracting a zero leaves the value. *)
Lemma sub_zero_FX a z :
  is_zero z = true -> is_nan a = false -> FX (a - z) = FX a.
Proof.
  unfold is_zero. rewrite eqb_spec, is_nan_SF. unfold FX. rewrite sub_spec.
  change (Prim2SF zero) with (S754_zero false). unfold SF64sub, SFeqb.
  destruct (Prim2SF z) as [sz|sz| |sz mz ez]; simpl; try discriminate.
  - intros _. destruct (Prim2SF a) as [[|]|sa| |sa ma ea], sz;
      simpl; intros; try discriminate; reflexivity.
  - destruct sz; discriminate.
  - destruct sz; discriminate.
Qed.

(** [-infinity] less a number other than [-infinity]. *)
Lemma sub_neg_infinity_l b :
  is_nan b = false -> (- bpow 1024 < FX b)%R ->
  neg_infinity - b = neg_infinity.
Proof.
  intros Nb Hb. apply Prim2SF_inj.
  assert (N : is_nan (neg_infinity - b) = false).
  { apply sub_not_nan; [reflexivity|exact Nb| |right; exact Hb].
    left. unfold FX. change (Prim2SF neg_infinity) with (S754_infinity true).
    cbn [SFx]. pose proof (bpow_gt_0 1024). lra. }
  rewrite is_nan_SF, sub_spec in N. rewrite sub_spec.
  change (Prim2SF neg_infinity) with (S754_infinity true) in *.
  now apply SFsub_inf_l.
Qed.

(** A number other than [+infinity] less [+infinity]. *)
Lemma sub_infinity_r a :
  is_nan a = false -> (FX a < bpow 1024)%R ->
  a - infinity = neg_infinity.
Proof.
  intros Na Ha. apply Prim2SF_inj.
  assert (N : is_nan (a - infinity) = false).
  { apply sub_not_nan; [exact Na|reflexivity|left; exact Ha|].
    right. unfold FX. change (Prim2SF infinity) with (S754_infinity false).
    cbn [SFx]. pose proof (bpow_gt_0 1024). lra. }
  rewrite is_nan_SF, sub_spec in N. rewrite sub_spec.
  change (Prim2SF infinity) with (S754_infinity false) in *.
  change (Prim2SF neg_infinity) with (S754_infinity (negb false)).
  now apply SFsub_inf_r.
Qed.

Lemma sub_not_neg_zero a b :
  Prim2SF a <> S754_zero true -> Prim2SF (a - b) <> S754_zero true.
Proof.
  intros Ha E. rewrite sub_spec in E. apply Ha.
  apply (SFsub_neg_zero_inv _ _ (Prim2SF_valid a) (Prim2SF_valid b) E).
Qed.

(** *** Multiplication by a positive constant *)

Lemma mul_pos_not_nan a c :
  pos_finite c -> is_nan a = false -> is_nan (a * c) = false.
Proof.
  intros [Fc Pc]. rewrite !is_nan_SF, mul_spec. intros Na.
  apply SFmul_pos_not_nan; auto using Prim2SF_valid.
Qed.

Lemma mul_mono_pos a a' c :
  pos_finite c -> is_nan a = false -> is_nan a' = false ->
  (FX a <= FX a')%R -> (FX (a * c) <= FX (a' * c))%R.
Proof.
  intros [Fc Pc]. rewrite !is_nan_SF. unfold FX. rewrite !mul_spec.
  intros Na Na' H. apply SFmul_mono_pos; auto using Prim2SF_valid.
Qed.

(** *** Signs *)

Lemma unsigned_FX a : unsigned a -> is_nan a = false -> (0 <= FX a)%R.
Proof.
  intros [N|S] Na; [congruence|].
  apply SFx_sign_false; auto using Prim2SF_valid.
Qed.

Lemma unsigned_abs a : unsigned (abs a).
Proof.
  unfold unsigned. rewrite is_nan_SF, abs_spec. apply SFabs_sign.
Qed.

Lemma unsigned_div a b : unsigned a -> unsigned b -> unsigned (a / b).
Proof.
  unfold unsigned. rewrite !is_nan_SF, div_spec. unfold SF64div.
  intros [Na|Sa] [Nb|Sb].
  - left. destruct (Prim2SF a); try discriminate. reflexivity.
  - left. destruct (Prim2SF a); try discriminate. reflexivity.
  - left. destruct (Prim2SF b); try discriminate.
    destruct (Prim2SF a); reflexivity.
  - destruct (SFdiv_sign (Prim2SF a) (Prim2SF b)) as [H|H]; [now left|].
    right. now rewrite H, Sa, Sb.
Qed.

Lemma unsigned_mul a b : unsigned a -> unsigned b -> unsigned (a * b).
Proof.
  unfold unsigned. rewrite !is_nan_SF, mul_spec. unfold SF64mul.
  intros [Na|Sa] [Nb|Sb].
  - left. destruct (Prim2SF a); try discriminate. reflexivity.
  - left. destruct (Prim2SF a); try discriminate. reflexivity.
  - left. destruct (Prim2SF b); try discriminate.
    destruct (Prim2SF a); reflexivity.
  - destruct (SFmul_sign (Prim2SF a) (Prim2SF b)) as [H|H]; [now left|].
    right. now rewrite H, Sa, Sb.
Qed.

(** A positive number over an unsigned zero is [+infinity]. *)
Lemma div_zero_infinity d w :
  (0 <? d) = true -> is_zero w = true -> unsigned w -> d / w = infinity.
Proof.
  unfold is_zero, unsigned. rewrite ltb_spec, eqb_spec, is_nan_SF.
  intros Hd Hw Uw. apply Prim2SF_inj. rewrite div_spec.
  change (Prim2SF 0) with (S754_zero false) in *.
  change (Prim2SF infinity) with (S754_infinity false).
  unfold SF64div, SFltb, SFeqb in *.
  destruct (Prim2SF w) as [sw|sw| |sw mw ew]; simpl in Hw;
    try discriminate; try (destruct sw; discriminate).
  destruct Uw as [Uw|Uw]; [discriminate|]. simpl in Uw. subst sw.
  destruct (Prim2SF d) as [sd|[|]| |[|] md ed]; simpl in Hd;
    try discriminate; reflexivity.
Qed.

(** ** Magnitudes and symmetries *)

(** Rounding gives the same magnitude for either sign. *)
Lemma binary_round_aux_abs s s' m e l :
  SFabs (binary_round_aux prec emax s m e l)
  = SFabs (binary_round_aux prec emax s' m e l).
Proof.
  unfold binary_round_aux.
  destruct (shr_fexp prec emax m e l) as [mrs e'].
  destruct (shr_fexp prec emax _ e' loc_Exact) as [mrs2 e2].
  destruct (shr_m mrs2); [reflexivity| |reflexivity].
  destruct (e2 <=? emax - prec)%Z; reflexivity.
Qed.

Lemma binary_normalize_opp_abs m e :
  SFabs (binary_normalize prec emax (- m)%Z e false)
  = SFabs (binary_normalize prec emax m e false).
Proof.
  destruct m as [|p|p]; [reflexivity| |]; cbn [Z.opp binary_normalize];
    unfold binary_round;
    destruct (shl_align p e (cexp (Z.pos (digits2_pos p) + e))) as [mz ez];
    apply binary_round_aux_abs.
Qed.

Lemma SFsub_swap_abs x y :
  SFabs (SFsub prec emax x y) = SFabs (SFsub prec emax y x).
Proof.
  destruct x as [sx|sx| |sx mx ex], y as [sy|sy| |sy my ey];
    try reflexivity; try (destruct sx, sy; reflexivity).
  cbn [SFsub]. cbv zeta. rewrite (Z.min_comm ey ex).
  rewrite <- binary_normalize_opp_abs. do 2 f_equal. lia.
Qed.

Lemma SFmul_abs x x' y :
  SFabs x = SFabs x' ->
  SFabs (SFmul prec emax x y) = SFabs (SFmul prec emax x' y).
Proof.
  destruct x, x'; cbn [SFabs]; intros H; inversion H; subst;
    destruct y; cbn [SFmul SFabs]; try reflexivity.
  apply binary_round_aux_abs.
Qed.

Lemma SFdiv_abs x x' y :
  SFabs x = SFabs x' ->
  SFabs (SFdiv prec emax x y) = SFabs (SFdiv prec emax x' y).
Proof.
  destruct x, x'; cbn [SFabs]; intros H; inversion H; subst;
    destruct y; cbn [SFdiv SFabs]; try reflexivity.
  destruct (SFdiv_core_binary _ _ _ _ _ _) as [[mz ez] lz].
  apply binary_round_aux_abs.
Qed.

Lemma SFadd_comm x y : SFadd prec emax x y = SFadd prec emax y x.
Proof.
  destruct x as [sx|sx| |sx mx ex], y as [sy|sy| |sy my ey];
    try reflexivity; try (destruct sx, sy; reflexivity).
  cbn [SFadd]. cbv zeta. rewrite (Z.min_comm ey ex). f_equal. lia.
Qed.

(** ** Division never invents a NaN *)

Lemma iter_shr_1_nonneg p : forall mrs,
  (0 <= shr_m mrs)%Z -> (0 <= shr_m (iter_pos shr_1 p mrs))%Z.
Proof.
  assert (S1 : forall mrs, (0 <= shr_m mrs)%Z -> (0 <= shr_m (shr_1 mrs))%Z).
  { intros mrs H. rewrite (shr_1_m _ H). cbn [shr_m]. apply Z.div_pos; lia. }
  induction p as [p IH|p IH|]; intros mrs H; simpl; auto.
Qed.

Lemma shr_fexp_nonneg m e l :
  (0 <= m)%Z -> (0 <= shr_m (fst (shr_fexp prec emax m e l)))%Z.
Proof.
  intros H. unfold shr_fexp, shr.
  assert (H0 : (0 <= shr_m (shr_record_of_loc m l))%Z)
    by (destruct l as [|[| |]]; exact H).
  destruct (cexp (Zdigits2 m + e) - e)%Z; cbn [fst]; auto.
  now apply iter_shr_1_nonneg.
Qed.

Lemma binary_round_aux_not_nan s m e l :
  (0 <= m)%Z -> SFis_nan (binary_round_aux prec emax s m e l) = false.
Proof.
  intros H. unfold binary_round_aux.
  pose proof (shr_fexp_nonneg m e l H) as H1.
  destruct (shr_fexp prec emax m e l) as [mrs e']. cbn [fst] in H1.
  assert (H2 : (0 <= round_nearest_even (shr_m mrs) (loc_of_shr_record mrs))%Z).
  { unfold round_nearest_even.
    destruct (loc_of_shr_record mrs) as [|[| |]]; try lia.
    destruct (Z.even (shr_m mrs)); lia. }
  pose proof (shr_fexp_nonneg _ e' loc_Exact H2) as H3.
  destruct (shr_fexp prec emax _ e' loc_Exact) as [mrs2 e2]. cbn [fst] in H3.
  destruct (shr_m mrs2); [reflexivity| |lia].
  destruct (e2 <=? emax - prec)%Z; reflexivity.
Qed.

Lemma SFdiv_core_nonneg m1 e1 m2 e2 :
  (0 <= fst (fst (SFdiv_core_binary prec emax (Z.pos m1) e1 (Z.pos m2) e2)))%Z.
Proof.
  unfold SFdiv_core_binary. cbv zeta.
  set (s := (e1 - e2 - _)%Z).
  set (m' := match s with 0%Z => _ | Z.pos _ => _ | Z.neg _ => _ end).
  assert (Hm : (0 <= m')%Z).
  { unfold m'. destruct s; try lia. apply Z.shiftl_nonneg. lia. }
  pose proof (Z.div_eucl_eq m' (Z.pos m2) ltac:(lia)) as E.
  pose proof (Z.mod_pos_bound m' (Z.pos m2) ltac:(lia)) as B.
  unfold Z.modulo in B.
  destruct (Z.div_eucl m' (Z.pos m2)) as [q r]. cbn [fst]. nia.
Qed.

(** A quotient is NaN only when an operand is, or on [0/0] and
    [inf/inf]. *)
Lemma SFdiv_is_nan x y :
  SFis_nan (SFdiv prec emax x y)
  = SFis_nan x || SFis_nan y
    || (match x, y with
        | S754_zero _, S754_zero _ => true
        | S754_infinity _, S754_infinity _ => true
        | _, _ => false
        end).
Proof.
  destruct x as [sx|sx| |sx mx ex], y as [sy|sy| |sy my ey];
    try reflexivity.
  cbn [SFdiv SFis_nan orb].
  pose proof (SFdiv_core_nonneg mx ex my ey) as H.
  destruct (SFdiv_core_binary _ _ _ _ _ _) as [[mz ez] lz]. cbn [fst] in H.
  now apply binary_round_aux_not_nan.
Qed.

Lemma SFmul_is_nan x y :
  SFis_nan (SFmul prec emax x y)
  = SFis_nan x || SFis_nan y
    || (match x, y with
        | S754_zero _, S754_infinity _ => true
        | S754_infinity _, S754_zero _ => true
        | _, _ => false
        end).
Proof.
  destruct x as [sx|sx| |sx mx ex], y as [sy|sy| |sy my ey];
    try reflexivity.
  cbn [SFmul SFis_nan orb]. now apply binary_round_aux_not_nan.
Qed.

(** ** The same facts on primitive floats *)

Lemma abs_congr a b :
  SFabs (Prim2SF a) = SFabs (Prim2SF b) -> abs a = abs b.
Proof. intros H. apply Prim2SF_inj. now rewrite !abs_spec. Qed.

Lemma abs_congr_inv a b :
  abs a = abs b -> SFabs (Prim2SF a) = SFabs (Prim2SF b).
Proof. intros H. rewrite <- !abs_spec. now rewrite H. Qed.

Lemma abs_sub_swap a b : abs (a - b) = abs (b - a).
Proof.
  apply abs_congr. rewrite !sub_spec. apply SFsub_swap_abs.
Qed.

Lemma abs_mul_congr a a' c : abs a = abs a' -> abs (a * c) = abs (a' * c).
Proof.
  intros H. apply abs_congr. rewrite !mul_spec.
  apply SFmul_abs. now apply abs_congr_inv.
Qed.

Lemma abs_div_congr a a' c : abs a = abs a' -> abs (a / c) = abs (a' / c).
Proof.
  intros H. apply abs_congr. rewrite !div_spec.
  apply SFdiv_abs. now apply abs_congr_inv.
Qed.

Lemma float_add_comm a b : a + b = b + a.
Proof. apply Prim2SF_inj. rewrite !add_spec. apply SFadd_comm. Qed.

Lemma abs_is_nan a : is_nan (abs a) = is_nan a.
Proof.
  rewrite !is_nan_SF, abs_spec. now destruct (Prim2SF a).
Qed.

(** A finite number over a positive one is a number. *)
Lemma div_not_nan d w :
  SFfinite (Prim2SF d) = true -> is_nan w = false -> (0 < FX w)%R ->
  is_nan (d / w) = false.
Proof.
  rewrite !is_nan_SF, div_spec. unfold FX, SF64div.
  intros Fd Nw Hw. rewrite SFdiv_is_nan, Nw.
  destruct (Prim2SF d) as [sd|sd| |sd md ed], (Prim2SF w) as [sw|sw| |sw mw ew];
    try reflexivity; try discriminate; cbn [SFx] in *; lra.
Qed.

(** A finite number minus a number is a number. *)
Lemma sub_finite_l_not_nan a b :
  SFfinite (Prim2SF a) = true -> is_nan b = false -> is_nan (a - b) = false.
Proof.
  rewrite !is_nan_SF, sub_spec. unfold SF64sub. intros Fa Nb.
  pose proof (Prim2SF_valid a) as Va. pose proof (Prim2SF_valid b) as Vb.
  destruct (SF_cases _ Nb) as [Fb|[Eb|Eb]].
  - apply (rounds_to_valid _ _ (SFsub_rounds _ _ Va Vb Fa Fb)).
  - rewrite Eb. destruct (Prim2SF a); try discriminate; reflexivity.
  - rewrite Eb. destruct (Prim2SF a); try discriminate; reflexivity.
Qed.

(** A number over a positive finite constant is a number. *)
Lemma div_pos_not_nan a c :
  pos_finite c -> is_nan a = false -> is_nan (a / c) = false.
Proof.
  intros [Fc Pc]. rewrite !is_nan_SF, div_spec. unfold SF64div, FX in *.
  intros Na. rewrite SFdiv_is_nan, Na.
  destruct (Prim2SF a) as [sa|sa| |sa ma ea], (Prim2SF c) as [sc|sc| |sc mc ec];
    try reflexivity; try discriminate; cbn [SFx] in *; lra.
Qed.

(** A finite number minus itself is [+0]. *)
Lemma sub_diag a : SFfinite (Prim2SF a) = true -> a - a = 0.
Proof.
  intros F. apply Prim2SF_inj. rewrite sub_spec. unfold SF64sub.
  change (Prim2SF 0) with (S754_zero false).
  destruct (Prim2SF a) as [[|]|s| |s m e]; try discriminate; try reflexivity.
  cbn [SFsub]. cbv zeta. now rewrite Z.sub_diag.
Qed.

Lemma is_finite_SF a : is_finite a = true -> SFfinite (Prim2SF a) = true.
Proof.
  unfold is_finite, is_infinity. rewrite is_nan_SF, eqb_spec, abs_spec.
  change (Prim2SF infinity) with (S754_infinity false).
  destruct (Prim2SF a) as [s|s| |s m e]; try reflexivity; discriminate.
Qed.


End Binary64Facts.

Import Binary64Facts.

(** * The analysis *)

(** ** First facts on floats *)

Lemma sub_nan_l (v : float) : nan - v = nan.
Proof.
  apply Prim2SF_inj. rewrite sub_spec. reflexivity.
Qed.

Lemma sub_nan_r (v : float) : v - nan = nan.
Proof.
  apply Prim2SF_inj. rewrite sub_spec.
  change (Prim2SF nan) with S754_nan.
  destruct (Prim2SF v); reflexivity.
Qed.

Lemma aggregate_nan_shoulder (hipTilt spine : float) :
  aggregate nan hipTilt spine = nan.
Proof.
  unfold aggregate.
  change (100 - nan * 2) with nan.
  now rewrite !sub_nan_l.
Qed.

Lemma aggregate_nan_hip (shoulderTilt spine : float) :
  aggregate shoulderTilt nan spine = nan.
Proof.
  unfold aggregate.
  change (nan * 2) with nan.
  now rewrite sub_nan_r, sub_nan_l.
Qed.

(** ** [Math.min], [Math.max] and the clamp *)

Lemma min_FX (a b : float) :
  is_nan a = false -> is_nan b = false ->
  is_nan (Math.min a b) = false /\ FX (Math.min a b) = Rmin (FX a) (FX b).
Proof.
  intros Na Nb. unfold Math.min. rewrite Na, Nb. simpl orb.
  destruct (a <? b) eqn:L1.
  - apply (ltb_FX a b Na Nb) in L1. split; [exact Na|].
    rewrite Rmin_left; lra.
  - destruct (b <? a) eqn:L2.
    + apply (ltb_FX b a Nb Na) in L2. split; [exact Nb|].
      rewrite Rmin_right; lra.
    + assert (E : FX a = FX b).
      { destruct (Rtotal_order (FX a) (FX b)) as [H|[H|H]]; [|exact H|].
        - apply (ltb_FX a b Na Nb) in H. congruence.
        - apply (ltb_FX b a Nb Na) in H. congruence. }
      destruct (get_sign a); split; auto; rewrite E, Rmin_left; lra.
Qed.

Lemma max_FX (a b : float) :
  is_nan a = false -> is_nan b = false ->
  is_nan (Math.max a b) = false /\ FX (Math.max a b) = Rmax (FX a) (FX b).
Proof.
  intros Na Nb. unfold Math.max. rewrite Na, Nb. simpl orb.
  destruct (a <? b) eqn:L1.
  - apply (ltb_FX a b Na Nb) in L1. split; [exact Nb|].
    rewrite Rmax_right; lra.
  - destruct (b <? a) eqn:L2.
    + apply (ltb_FX b a Nb Na) in L2. split; [exact Na|].
      rewrite Rmax_left; lra.
    + assert (E : FX a = FX b).
      { destruct (Rtotal_order (FX a) (FX b)) as [H|[H|H]]; [|exact H|].
        - apply (ltb_FX a b Na Nb) in H. congruence.
        - apply (ltb_FX b a Nb Na) in H. congruence. }
      destruct (get_sign a); split; auto; rewrite E, Rmax_left; lra.
Qed.

(** The order of the constants of the analysis, on the reals. *)
Lemma FX_constants :
  (FX 0 = 0 /\ FX 0 < FX 15 /\ FX 15 < FX 60 /\ FX 60 < FX 70
   /\ FX 70 < FX 80 /\ FX 80 < FX 100 /\ FX 100 < bpow 1024)%R.
Proof.
  split; [reflexivity|].
  repeat (split; [apply ltb_FX; reflexivity|]).
  apply (FX_finite 100). reflexivity.
Qed.

(** Line 86 on a number: the clamp is a number of [[0,100]], monotone in
    its argument. *)
Lemma clamp_FX (v : float) :
  is_nan v = false ->
  is_nan (Math.max 0 (Math.min 100 v)) = false
  /\ FX (Math.max 0 (Math.min 100 v)) = Rmax (FX 0) (Rmin (FX 100) (FX v)).
Proof.
  intros Nv.
  destruct (min_FX 100 v eq_refl Nv) as [N1 E1].
  destruct (max_FX 0 _ eq_refl N1) as [N2 E2].
  split; [exact N2|]. now rewrite E2, E1.
Qed.

Lemma clamp_nan : Math.max 0 (Math.min 100 nan) = nan.
Proof. reflexivity. Qed.

Lemma clamp_finite (v : float) :
  is_nan v = false ->
  SFfinite (Prim2SF (Math.max 0 (Math.min 100 v))) = true
  /\ (FX 0 <= FX (Math.max 0 (Math.min 100 v)) <= FX 100)%R.
Proof.
  intros Nv. destruct (clamp_FX v Nv) as [N E].
  pose proof FX_constants as (Z0 & C1 & C2 & C3 & C4 & C5 & C6).
  assert (B : (FX 0 <= FX (Math.max 0 (Math.min 100 v)) <= FX 100)%R).
  { rewrite E. split; [apply Rmax_l|].
    apply Rmax_lub; [lra|apply Rmin_l]. }
  split; [|exact B]. apply finite_of_FX; [exact N|].
  pose proof (bpow_gt_0 1024). lra.
Qed.

(** Line 86 is the clamp of the specification, on every float but [-0]
    (which line 86 turns into [+0]). *)
Lemma clamp_eq (v : float) :
  Prim2SF v <> S754_zero true ->
  Math.max 0 (Math.min 100 v) = clamp v 0 100.
Proof.
  intros Hv. unfold clamp.
  destruct (is_nan v) eqn:Nv; [now rewrite (is_nan_true _ Nv)|].
  pose proof FX_constants as (Z0 & C1 & C2 & C3 & C4 & C5 & C6).
  unfold Math.min, Math.max. rewrite Nv. cbn [is_nan orb].
  change (is_nan 100) with false. change (is_nan 0) with false. cbn [orb].
  destruct (v <? 0) eqn:L0.
  - apply (ltb_FX v 0 Nv eq_refl) in L0.
    rewrite (ltb_false_of_le 100 v eq_refl Nv) by lra.
    rewrite (proj2 (ltb_FX v 100 Nv eq_refl)) by lra.
    rewrite Nv. cbn [orb].
    rewrite (ltb_false_of_le 0 v eq_refl Nv) by lra.
    now rewrite (proj2 (ltb_FX v 0 Nv eq_refl)) by lra.
  - destruct (100 <? v) eqn:L1; [reflexivity|].
    assert (Em : (if v <? 100 then v else if get_sign 100 then 100 else v) = v)
      by (destruct (v <? 100); reflexivity).
    rewrite Em, Nv. cbn [orb].
    destruct (0 <? v) eqn:L2; [reflexivity|]. rewrite L0.
    change (get_sign 0) with false. cbv iota.
    assert (E0 : FX v = 0%R).
    { destruct (Rtotal_order (FX v) 0) as [H|[H|H]]; [|exact H|].
      - rewrite <- Z0 in H. apply (ltb_FX v 0 Nv eq_refl) in H. congruence.
      - rewrite <- Z0 in H. apply (ltb_FX 0 v eq_refl Nv) in H. congruence. }
    destruct (FX_zero_inv v Nv E0) as [[|] E]; [now destruct Hv|].
    now apply Prim2SF_inj.
Qed.

(** ** [Math.round] *)

(** On a finite float [Math.round] is [floor (x + 1/2)], exactly. *)
Lemma round_finite (v : float) :
  SFfinite (Prim2SF v) = true ->
  SFfinite (Prim2SF (Math.round v)) = true
  /\ FX (Math.round v) = IZR (Zfloor (FX v + 1 / 2)).
Proof.
  intros F. unfold Math.round, FX.
  pose proof (Prim2SF_valid v) as V.
  destruct (Prim2SF v) as [s|s| |s m e] eqn:E; try discriminate.
  - rewrite E. split; [reflexivity|]. cbn [SFx].
    now rewrite (Zfloor_half 0).
  - destruct (Z.leb_spec 0 e) as [He|He].
    + rewrite E. split; [reflexivity|]. cbn [SFx].
      assert (EI : F2R (cond_Zopp s (Z.pos m)) e
                   = IZR (cond_Zopp s (Z.pos m) * 2 ^ e)).
      { unfold F2R. now rewrite mult_IZR, IZR_pow2. }
      now rewrite EI, Zfloor_half.
    + set (k := (- e)%Z). assert (Hk : (0 < k)%Z) by (unfold k; lia).
      set (sm := cond_Zopp s (Z.pos m)).
      replace (1 - e)%Z with (k + 1)%Z by (unfold k; lia).
      set (n := ((2 * sm + 2 ^ k) / 2 ^ (k + 1))%Z).
      pose proof (Z.pow_pos_nonneg 2 k ltac:(lia) ltac:(lia)) as Pk.
      assert (E2 : (2 ^ (k + 1) = 2 * 2 ^ k)%Z)
        by (rewrite Z.pow_add_r by lia; change (2 ^ 1)%Z with 2%Z; lia).
      assert (Efl : Zfloor (SFx (S754_finite s m e) + 1 / 2) = n).
      { unfold n. rewrite <- Zfloor_div by lia. f_equal.
        cbn [SFx]. fold sm. unfold F2R.
        assert (Eb : bpow e = (/ IZR (2 ^ k))%R).
        { rewrite IZR_pow2 by lia.
          apply Rmult_eq_reg_r with (bpow k); [|pose proof (bpow_gt_0 k); lra].
          rewrite <- bpow_add, Rinv_l by (pose proof (bpow_gt_0 k); lra).
          replace (e + k)%Z with 0%Z by (unfold k; lia). reflexivity. }
        rewrite Eb, E2, !plus_IZR, !mult_IZR.
        assert (0 < IZR (2 ^ k))%R by (apply IZR_lt; lia).
        field. lra. }
      rewrite Efl.
      destruct (Z.eqb_spec n 0) as [En|En].
      * rewrite En. destruct s; split; reflexivity.
      * assert (Hm : (Z.abs sm < 2 ^ 53)%Z).
        { destruct (valid_finite_inv _ _ _ V) as [Hc _].
          rewrite cexp_eq in Hc.
          pose proof (digits2_pos_bounds m) as [_ Hhi].
          assert ((2 ^ Z.pos (digits2_pos m) <= 2 ^ 53)%Z)
            by (apply Z.pow_le_mono_r; lia).
          unfold sm. destruct s; simpl cond_Zopp; lia. }
        assert (Hn : (Z.abs n < 2 ^ 53)%Z).
        { assert (Pk2 : (2 <= 2 ^ k)%Z).
          { change 2%Z with (2 ^ 1)%Z at 1. apply Z.pow_le_mono_r; lia. }
          pose proof (Z.mul_div_le (2 * sm + 2 ^ k) (2 ^ (k + 1)) ltac:(lia)) as L.
          pose proof (Z.mul_succ_div_gt (2 * sm + 2 ^ k) (2 ^ (k + 1)) ltac:(lia)) as U.
          fold n in L, U. rewrite E2 in L, U.
          change (2 ^ 53)%Z with 9007199254740992%Z in *. nia. }
        destruct (binary_normalize_int n Hn) as (Vn & Fn & Xn).
        unfold Math.of_Z. rewrite (Prim2SF_SF2Prim _ Vn). now split.
Qed.

Lemma Math_round_mono (a b : float) :
  SFfinite (Prim2SF a) = true -> SFfinite (Prim2SF b) = true ->
  (FX a <= FX b)%R -> (FX (Math.round a) <= FX (Math.round b))%R.
Proof.
  intros Fa Fb H.
  rewrite (proj2 (round_finite a Fa)), (proj2 (round_finite b Fb)).
  apply IZR_le, Zfloor_le. lra.
Qed.

Lemma FX_100 : FX 100 = 100%R.
Proof.
  unfold FX.
  change (Prim2SF 100) with (binary_normalize prec emax 100 0 false).
  now apply binary_normalize_int.
Qed.

(** The rounded clamp of a number meets the invariant. *)
Lemma round_clamp_integer (v : float) :
  is_nan v = false ->
  integer_score (Math.round (Math.max 0 (Math.min 100 v))).
Proof.
  intros Nv. destruct (clamp_finite v Nv) as [F [L U]].
  destruct (round_finite _ F) as [Fr Er].
  split; [exact Fr|].
  rewrite (proj1 FX_constants) in L. rewrite FX_100 in U.
  exists (Zfloor (FX (Math.max 0 (Math.min 100 v)) + 1 / 2)).
  split; [|exact Er]. split.
  - apply Zfloor_lub. simpl IZR. lra.
  - rewrite <- (Zfloor_half 100). apply Zfloor_le. lra.
Qed.

(** ** The penalties of the aggregate score *)

Lemma pos_finite_intro (c : float) :
  SFfinite (Prim2SF c) = true -> (0 <? c) = true -> pos_finite c.
Proof.
  intros F P. split; [exact F|].
  apply (ltb_FX 0 c eq_refl (finite_not_nan c F)) in P.
  now rewrite (proj1 FX_constants) in P.
Qed.

Lemma mul_zero_FX (c : float) : pos_finite c -> FX (0 * c) = 0%R.
Proof.
  intros [F P]. unfold FX in *. rewrite mul_spec.
  change (Prim2SF 0) with (S754_zero false). unfold SF64mul.
  destruct (Prim2SF c); try discriminate; reflexivity.
Qed.

(** One penalty [a - t * c] of lines 83-85, for a weight [c > 0]: a larger
    feature [t] or a smaller [a] gives a smaller result, and the penalty
    never raises [a]. *)
Lemma penalty_step (a a' t t' c : float) :
  pos_finite c ->
  is_nan a = false -> is_nan a' = false ->
  (FX a <= FX a')%R -> (FX a' < bpow 1024)%R ->
  is_nan t = false -> is_nan t' = false ->
  (0 <= FX t')%R -> (FX t' <= FX t)%R ->
  is_nan (a - t * c) = false /\ is_nan (a' - t' * c) = false
  /\ (FX (a - t * c) <= FX (a' - t' * c))%R
  /\ (FX (a' - t' * c) <= FX a')%R.
Proof.
  intros Hc Na Na' Ha Ha' Nt Nt' Pt' Ht.
  pose proof (bpow_gt_0 1024) as HI.
  pose proof (mul_pos_not_nan t c Hc Nt) as Np.
  pose proof (mul_pos_not_nan t' c Hc Nt') as Np'.
  pose proof (mul_mono_pos t' t c Hc Nt' Nt Ht) as Hp.
  assert (P0 : (0 <= FX (t' * c))%R).
  { rewrite <- (mul_zero_FX c Hc).
    apply mul_mono_pos; auto; now rewrite (proj1 FX_constants). }
  assert (N1 : is_nan (a - t * c) = false)
    by (apply sub_not_nan; [assumption|assumption|left; lra|right; lra]).
  assert (N2 : is_nan (a' - t' * c) = false)
    by (apply sub_not_nan; [assumption|assumption|left; lra|right; lra]).
  assert (N3 : is_nan (a' - 0) = false).
  { apply sub_not_nan; [assumption|reflexivity| |];
      rewrite (proj1 FX_constants); right; lra. }
  repeat split; auto.
  - apply sub_mono; auto.
  - rewrite <- (sub_zero_FX a' 0 eq_refl Na').
    apply sub_mono; auto; try lra; now rewrite (proj1 FX_constants).
Qed.

Lemma pos_finite_2 : pos_finite 2.
Proof. now apply pos_finite_intro. Qed.

Lemma pos_finite_half : pos_finite 0.5.
Proof. now apply pos_finite_intro. Qed.

(** Lines 82-85 on features that are non-negative numbers. *)
Lemma raw_score_mono (st st' ht ht' sa sa' : float) :
  is_nan st = false -> is_nan st' = false ->
  is_nan ht = false -> is_nan ht' = false ->
  is_nan sa = false -> is_nan sa' = false ->
  (0 <= FX st' <= FX st)%R -> (0 <= FX ht' <= FX ht)%R ->
  (0 <= FX sa' <= FX sa)%R ->
  is_nan (100 - st * 2 - ht * 2 - sa * 0.5) = false
  /\ is_nan (100 - st' * 2 - ht' * 2 - sa' * 0.5) = false
  /\ (FX (100 - st * 2 - ht * 2 - sa * 0.5)
      <= FX (100 - st' * 2 - ht' * 2 - sa' * 0.5))%R
  /\ (FX (100 - st' * 2 - ht' * 2 - sa' * 0.5) <= FX (100 - st' * 2))%R
  /\ (FX (100 - st' * 2) <= FX 100)%R.
Proof.
  intros Nst Nst' Nht Nht' Nsa Nsa' [Pst Hst] [Pht Hht] [Psa Hsa].
  pose proof FX_constants as (Z0 & C1 & C2 & C3 & C4 & C5 & C6).
  destruct (penalty_step 100 100 st st' 2 pos_finite_2 eq_refl eq_refl
              ltac:(lra) C6 Nst Nst' Pst Hst) as (N1 & N1' & M1 & B1).
  destruct (penalty_step _ _ ht ht' 2 pos_finite_2 N1 N1' M1
              ltac:(lra) Nht Nht' Pht Hht) as (N2 & N2' & M2 & B2).
  destruct (penalty_step _ _ sa sa' 0.5 pos_finite_half N2 N2' M2
              ltac:(lra) Nsa Nsa' Psa Hsa) as (N3 & N3' & M3 & B3).
  repeat split; auto; lra.
Qed.

Lemma aggregate_eq (shoulderTilt hipTilt spine : float) :
  aggregate shoulderTilt hipTilt spine
  = Math.max 0
      (Math.min 100 (100 - shoulderTilt * 2 - hipTilt * 2 - spine * 0.5)).
Proof. reflexivity. Qed.

(** The clamped aggregate is antitone in the three features together. *)
Lemma aggregate_antitone (st st' ht ht' sa sa' : float) :
  (0 <=? st) = true -> (st <=? st') = true ->
  (0 <=? ht) = true -> (ht <=? ht') = true ->
  (0 <=? sa) = true -> (sa <=? sa') = true ->
  (aggregate st' ht' sa' <=? aggregate st ht sa) = true.
Proof.
  intros Pst Hst Pht Hht Psa Hsa.
  destruct (leb_not_nan _ _ Hst) as [Nst Nst'].
  destruct (leb_not_nan _ _ Hht) as [Nht Nht'].
  destruct (leb_not_nan _ _ Hsa) as [Nsa Nsa'].
  apply (leb_FX 0 st eq_refl Nst) in Pst. apply (leb_FX _ _ Nst Nst') in Hst.
  apply (leb_FX 0 ht eq_refl Nht) in Pht. apply (leb_FX _ _ Nht Nht') in Hht.
  apply (leb_FX 0 sa eq_refl Nsa) in Psa. apply (leb_FX _ _ Nsa Nsa') in Hsa.
  rewrite (proj1 FX_constants) in Pst, Pht, Psa.
  destruct (raw_score_mono st' st ht' ht sa' sa) as (N & N' & M & _);
    auto.
  rewrite !aggregate_eq.
  destruct (clamp_FX _ N) as [C E]. destruct (clamp_FX _ N') as [C' E'].
  apply leb_FX; auto. rewrite E, E'.
  apply Rle_max_compat_l, Rle_min_compat_l, M.
Qed.

Lemma aggregate_nan_spine (shoulderTilt hipTilt : float) :
  aggregate shoulderTilt hipTilt nan = nan.
Proof.
  rewrite aggregate_eq. change (nan * 0.5) with nan.
  now rewrite sub_nan_r.
Qed.

(** A shoulder tilt above 15 costs 30 points or more: the clamped
    aggregate is NaN or at most 70. *)
Lemma aggregate_above_15 (st ht sa : float) :
  unsigned ht -> unsigned sa -> (st >? 15) = true ->
  aggregate st ht sa = nan
  \/ (SFfinite (Prim2SF (aggregate st ht sa)) = true
      /\ (FX (aggregate st ht sa) <= FX 70)%R).
Proof.
  intros Uht Usa Hst.
  destruct (is_nan ht) eqn:Nht;
    [left; rewrite (is_nan_true _ Nht); apply aggregate_nan_hip|].
  destruct (is_nan sa) eqn:Nsa;
    [left; rewrite (is_nan_true _ Nsa); apply aggregate_nan_spine|].
  right. unfold gtb in Hst.
  destruct (ltb_not_nan _ _ Hst) as [_ Nst].
  apply (ltb_FX 15 st eq_refl Nst) in Hst.
  pose proof (unsigned_FX _ Uht Nht) as Pht.
  pose proof (unsigned_FX _ Usa Nsa) as Psa.
  pose proof FX_constants as (Z0 & C1 & C2 & C3 & C4 & C5 & C6).
  destruct (raw_score_mono st 15 ht 0 sa 0) as (N & _ & M & _);
    auto; try (rewrite ?Z0; lra).
  change (100 - 15 * 2 - 0 * 2 - 0 * 0.5) with 70 in M.
  rewrite aggregate_eq.
  destruct (clamp_finite _ N) as [F _]. split; [exact F|].
  rewrite (proj2 (clamp_FX _ N)).
  apply Rmax_lub; [lra|].
  apply Rle_trans with (FX (100 - st * 2 - ht * 2 - sa * 0.5));
    [apply Rmin_r|exact M].
Qed.

Lemma mul_pos_nonneg (t c : float) :
  pos_finite c -> is_nan t = false -> (0 <= FX t)%R -> (0 <= FX (t * c))%R.
Proof.
  intros Hc Nt Pt. rewrite <- (mul_zero_FX c Hc).
  apply mul_mono_pos; auto; now rewrite (proj1 FX_constants).
Qed.

(** An infinite tilt with the other features numbers: the aggregate is
    [-infinity] before the clamp, and 0 after it. *)
Lemma aggregate_infinite_shoulder (ht sa : float) :
  unsigned ht -> unsigned sa -> is_nan ht = false -> is_nan sa = false ->
  aggregate infinity ht sa = 0.
Proof.
  intros Uht Usa Nht Nsa. rewrite aggregate_eq.
  change (100 - infinity * 2) with neg_infinity.
  pose proof (bpow_gt_0 1024) as HI.
  rewrite sub_neg_infinity_l.
  - rewrite sub_neg_infinity_l; [reflexivity| |].
    + now apply mul_pos_not_nan; [apply pos_finite_half|].
    + pose proof (mul_pos_nonneg sa 0.5 pos_finite_half Nsa
                    (unsigned_FX _ Usa Nsa)). lra.
  - now apply mul_pos_not_nan; [apply pos_finite_2|].
  - pose proof (mul_pos_nonneg ht 2 pos_finite_2 Nht
                  (unsigned_FX _ Uht Nht)). lra.
Qed.

Lemma aggregate_infinite_hip (st sa : float) :
  unsigned st -> unsigned sa -> is_nan st = false -> is_nan sa = false ->
  aggregate st infinity sa = 0.
Proof.
  intros Ust Usa Nst Nsa. rewrite aggregate_eq.
  pose proof (bpow_gt_0 1024) as HI.
  pose proof FX_constants as (Z0 & C1 & C2 & C3 & C4 & C5 & C6).
  pose proof (unsigned_FX _ Ust Nst) as Pst.
  destruct (penalty_step 100 100 st st 2 pos_finite_2 eq_refl eq_refl
              ltac:(lra) C6 Nst Nst Pst ltac:(lra)) as (N1 & _ & _ & B1).
  change (infinity * 2) with infinity.
  rewrite (sub_infinity_r _ N1) by lra.
  rewrite sub_neg_infinity_l; [reflexivity| |].
  - now apply mul_pos_not_nan; [apply pos_finite_half|].
  - pose proof (mul_pos_nonneg sa 0.5 pos_finite_half Nsa
                  (unsigned_FX _ Usa Nsa)). lra.
Qed.

(** A pair of landmarks with no horizontal distance and some vertical
    distance has an infinite tilt. *)
Lemma tilt_infinite (l r : Keypoint) :
  (Math.abs (x l - x r) =? 0) = true ->
  (0 <? Math.abs (y l - y r)) = true ->
  tilt l r = infinity.
Proof.
  intros Hw Hd. unfold tilt.
  rewrite (div_zero_infinity _ _ Hd Hw (unsigned_abs _)).
  reflexivity.
Qed.

(** With no horizontal distance the tilt is NaN or [+infinity]. *)
Lemma tilt_zero_width (l r : Keypoint) :
  is_zero (Math.abs (x l - x r)) = true ->
  tilt l r = nan \/ tilt l r = infinity.
Proof.
  unfold tilt, Math.abs, is_zero. rewrite eqb_spec, abs_spec.
  change (Prim2SF zero) with (S754_zero false). intros Hw.
  assert (E : Prim2SF (abs (y l - y r) / abs (x l - x r)) = S754_nan
              \/ Prim2SF (abs (y l - y r) / abs (x l - x r))
                 = S754_infinity false).
  { rewrite div_spec, !abs_spec. unfold SF64div.
    destruct (Prim2SF (x l - x r)) as [sw|sw| |sw mw ew];
      cbn [SFabs SFeqb SFcompare] in Hw; try discriminate.
    destruct (Prim2SF (y l - y r)); cbn [SFabs SFdiv xorb]; auto. }
  destruct E as [E|E]; [left|right];
    apply Prim2SF_inj; rewrite mul_spec, E; reflexivity.
Qed.

Lemma tilt_unsigned (l r : Keypoint) : unsigned (tilt l r).
Proof.
  unfold tilt, Math.abs.
  apply unsigned_mul; [|right; reflexivity].
  apply unsigned_div; apply unsigned_abs.
Qed.

(** ** The analysis after validation *)

Section Facts.

Variable atan2 : float -> float -> float.

Lemma analyzePosture_validated keypoints leftShoulder rightShoulder leftHip rightHip :
  validated keypoints leftShoulder rightShoulder leftHip rightHip ->
  analyzePosture atan2 keypoints
  = feedback (tilt leftShoulder rightShoulder) (tilt leftHip rightHip)
      (aggregate (tilt leftShoulder rightShoulder) (tilt leftHip rightHip)
         (spineAngle atan2 leftShoulder rightShoulder leftHip rightHip)).
Proof.
  intros (Hls & Hrs & Hlh & Hrh & G1 & G2 & G3 & G4).
  unfold analyzePosture.
  now rewrite Hls, Hrs, Hlh, Hrh, G1, G2, G3, G4.
Qed.

Lemma feedback_score shoulderTilt hipTilt sc :
  status_score (feedback shoulderTilt hipTilt sc) = Math.round sc.
Proof.
  unfold feedback.
  destruct (shoulderTilt >? 15), (hipTilt >? 15), (sc >? 80), (sc >? 60);
    reflexivity.
Qed.

(** C1 (the code at the failing input): with both shoulders at one place
    the shoulder tilt is 0/0, and the score that [analyzePosture] returns is
    NaN, which is no integer of [0,100]. *)
Theorem score_nan_on_coincident_shoulders :
  analyzePosture atan2 coincident_shoulders
  = mkStatus nan "Poor posture - sit up straight" destructive.
Proof.
  rewrite (analyzePosture_validated coincident_shoulders
             (kp "left_shoulder" 100 50 0.9) (kp "right_shoulder" 100 50 0.9)
             (kp "left_hip" 80 150 0.9) (kp "right_hip" 120 150 0.9))
    by (repeat split; reflexivity).
  change (tilt (kp "left_shoulder" 100 50 0.9) (kp "right_shoulder" 100 50 0.9))
    with nan.
  rewrite aggregate_nan_shoulder.
  reflexivity.
Qed.

(** X1: for every input, the score of the result is NaN or an integer of
    [[0,100]]: NaN is the only way out of the range. *)
Lemma score_integer_unless_nan (keypoints : list Keypoint) :
  status_score (analyzePosture atan2 keypoints) = nan
  \/ integer_score (status_score (analyzePosture atan2 keypoints)).
Proof.
  assert (Z : integer_score 0).
  { split; [reflexivity|]. exists 0%Z. split; [lia|]. apply FX_constants. }
  unfold analyzePosture.
  destruct (find_keypoint "left_shoulder" keypoints) as [ls|]; [|now right].
  destruct (find_keypoint "right_shoulder" keypoints) as [rs|]; [|now right].
  destruct (find_keypoint "left_hip" keypoints) as [lh|]; [|now right].
  destruct (find_keypoint "right_hip" keypoints) as [rh|]; [|now right].
  destruct (_ || _); [now right|].
  cbv zeta. rewrite feedback_score, aggregate_eq.
  destruct (is_nan (100 - tilt ls rs * 2 - tilt lh rh * 2
                    - spineAngle atan2 ls rs lh rh * 0.5)) eqn:N.
  - left. now rewrite (is_nan_true _ N).
  - right. now apply round_clamp_integer.
Qed.

(** *** Lookup *)

Lemma find_keypoint_first n before k after :
  name k = n ->
  (forall k', In k' before -> name k' <> n) ->
  find_keypoint n (before ++ k :: after) = Some k.
Proof.
  intros Hk Hbefore. unfold find_keypoint.
  induction before as [|b before IH]; simpl.
  - now rewrite (proj2 (String.eqb_eq _ _) Hk).
  - destruct (String.eqb_spec (name b) n) as [E|_].
    + now destruct (Hbefore b (or_introl eq_refl)).
    + apply IH. intros k' Hin. apply Hbefore. now right.
Qed.

Lemma find_keypoint_absent n keypoints :
  (forall k, In k keypoints -> name k <> n) ->
  find_keypoint n keypoints = None.
Proof.
  intros Habsent. unfold find_keypoint.
  destruct (find _ keypoints) as [k|] eqn:F; [|reflexivity].
  destruct (find_some _ _ F) as [Hin Hname].
  apply String.eqb_eq in Hname. now destruct (Habsent k Hin).
Qed.

(** C6: when one of the four required names has no entry, the result is
    score 0, "Position yourself in frame", WARNING, whatever the other
    entries are; and a name that has entries resolves to the first of
    them. *)
Theorem missing_landmark_and_first_match (keypoints : list Keypoint) :
  ((exists n, In n required /\ forall k, In k keypoints -> name k <> n) ->
   analyzePosture atan2 keypoints
   = mkStatus 0 "Position yourself in frame" warning
   /\ severity (analyzePosture atan2 keypoints) = WARNING)
  /\ (forall n before k after,
        keypoints = before ++ k :: after ->
        name k = n ->
        (forall k', In k' before -> name k' <> n) ->
        find_keypoint n keypoints = Some k).
Proof.
  split.
  - intros (n & Hreq & Habsent).
    assert (E : analyzePosture atan2 keypoints
                = mkStatus 0 "Position yourself in frame" warning).
    { apply find_keypoint_absent in Habsent.
      unfold analyzePosture.
      destruct Hreq as [<-|[<-|[<-|[<-|[]]]]]; rewrite Habsent.
      - reflexivity.
      - now destruct (find_keypoint "left_shoulder" keypoints).
      - now destruct (find_keypoint "left_shoulder" keypoints),
                     (find_keypoint "right_shoulder" keypoints).
      - now destruct (find_keypoint "left_shoulder" keypoints),
                     (find_keypoint "right_shoulder" keypoints),
                     (find_keypoint "left_hip" keypoints). }
    now rewrite E.
  - intros n before k after -> Hk Hbefore.
    now apply find_keypoint_first.
Qed.

(** The result depends on the keypoints only through what the four
    lookups resolve to. *)
Lemma analyzePosture_depends_on_lookups (keypoints1 keypoints2 : list Keypoint) :
  (forall n, In n required ->
     find_keypoint n keypoints1 = find_keypoint n keypoints2) ->
  analyzePosture atan2 keypoints1 = analyzePosture atan2 keypoints2.
Proof.
  intros Hsame. unfold analyzePosture.
  rewrite (Hsame "left_shoulder"), (Hsame "right_shoulder"),
    (Hsame "left_hip"), (Hsame "right_hip"); simpl; tauto.
Qed.

(** *** The confidence gate *)

(** C3, as amended: when the four landmarks are found and one of them has
    a confidence that is present and below 0.3, the result is score 0,
    "Move closer or improve lighting", WARNING, whatever the coordinates
    and whatever [Math.atan2] would return. *)
Theorem low_confidence_gate keypoints leftShoulder rightShoulder leftHip rightHip :
  find_keypoint "left_shoulder" keypoints = Some leftShoulder ->
  find_keypoint "right_shoulder" keypoints = Some rightShoulder ->
  find_keypoint "left_hip" keypoints = Some leftHip ->
  find_keypoint "right_hip" keypoints = Some rightHip ->
  (exists k c,
      In k [leftShoulder; rightShoulder; leftHip; rightHip]
      /\ score k = Some c /\ (c <? 0.3) = true) ->
  analyzePosture atan2 keypoints
  = mkStatus 0 "Move closer or improve lighting" warning
  /\ severity (analyzePosture atan2 keypoints) = WARNING.
Proof.
  intros Hls Hrs Hlh Hrh (k & c & Hin & Hc & Hlow).
  assert (B : score_below k minConfidence = true)
    by (unfold score_below; now rewrite Hc).
  assert (E : analyzePosture atan2 keypoints
              = mkStatus 0 "Move closer or improve lighting" warning).
  { unfold analyzePosture. rewrite Hls, Hrs, Hlh, Hrh.
    destruct Hin as [<-|[<-|[<-|[<-|[]]]]]; rewrite B;
      now rewrite ?orb_true_r. }
  now rewrite E.
Qed.

(** *** Classification *)

(** C4, as amended: after validation the rules are tried in order, each
    one only when the ones before it failed; the score that the rules
    [score > 80] and [score > 60] compare is the clamped aggregate before
    rounding, and the score of the result is its rounding. *)
Theorem classification_rules keypoints leftShoulder rightShoulder leftHip rightHip :
  validated keypoints leftShoulder rightShoulder leftHip rightHip ->
  let shoulderTilt := tilt leftShoulder rightShoulder in
  let hipTilt := tilt leftHip rightHip in
  let score :=
    aggregate shoulderTilt hipTilt
      (spineAngle atan2 leftShoulder rightShoulder leftHip rightHip) in
  let result := analyzePosture atan2 keypoints in
  status_score result = Math.round score
  /\ ((shoulderTilt >? 15) = true ->
      message result = "Straighten your shoulders"
      /\ severity result = CRITICAL)
  /\ ((shoulderTilt >? 15) = false -> (hipTilt >? 15) = true ->
      message result = "Adjust your sitting posture"
      /\ severity result = WARNING)
  /\ ((shoulderTilt >? 15) = false -> (hipTilt >? 15) = false ->
      (score >? 80) = true ->
      message result = "Good posture detected!" /\ severity result = OK)
  /\ ((shoulderTilt >? 15) = false -> (hipTilt >? 15) = false ->
      (score >? 80) = false -> (score >? 60) = true ->
      message result = "Minor adjustments needed"
      /\ severity result = WARNING)
  /\ ((shoulderTilt >? 15) = false -> (hipTilt >? 15) = false ->
      (score >? 80) = false -> (score >? 60) = false ->
      message result = "Poor posture - sit up straight"
      /\ severity result = CRITICAL).
Proof.
  intros Hv shoulderTilt hipTilt sc result.
  unfold result. rewrite (analyzePosture_validated _ _ _ _ _ Hv).
  fold shoulderTilt hipTilt sc. split; [apply feedback_score|].
  unfold feedback.
  repeat split; intros;
    repeat match goal with H : _ = _ :> bool |- _ => rewrite H; clear H end;
    reflexivity.
Qed.

Lemma spineAngle_unsigned (ls rs lh rh : Keypoint) :
  unsigned (spineAngle atan2 ls rs lh rh).
Proof. unfold spineAngle, Math.abs. apply unsigned_abs. Qed.

(** *** The score under a tilt override *)

(** When the result is "Straighten your shoulders" the score is NaN or
    at most 70: it is never above 70. *)
Lemma straighten_score_le_70 (keypoints : list Keypoint) :
  message (analyzePosture atan2 keypoints) = "Straighten your shoulders" ->
  (status_score (analyzePosture atan2 keypoints) >? 70) = false.
Proof.
  unfold analyzePosture.
  destruct (find_keypoint "left_shoulder" keypoints) as [ls|]; [|discriminate].
  destruct (find_keypoint "right_shoulder" keypoints) as [rs|]; [|discriminate].
  destruct (find_keypoint "left_hip" keypoints) as [lh|]; [|discriminate].
  destruct (find_keypoint "right_hip" keypoints) as [rh|]; [|discriminate].
  destruct (_ || _); [discriminate|].
  cbv zeta. unfold feedback.
  destruct (tilt ls rs >? 15) eqn:Hst.
  2:{ destruct (tilt lh rh >? 15); [discriminate|].
      destruct (_ >? 80); [discriminate|].
      destruct (_ >? 60); discriminate. }
  intros _. cbn [status_score]. unfold gtb.
  destruct (aggregate_above_15 _ _ _ (tilt_unsigned lh rh)
              (spineAngle_unsigned ls rs lh rh) Hst) as [E|[F B]].
  - rewrite E. reflexivity.
  - pose proof (Math_round_mono _ 70 F eq_refl B) as M.
    change (Math.round 70) with 70 in M.
    apply ltb_false_of_le; [reflexivity| |exact M].
    apply finite_not_nan. apply (round_finite _ F).
Qed.

(** *** Degenerate geometry *)

(** Where the code does what C2 asks: with no horizontal distance between
    the shoulders (or between the hips) but some vertical distance, the
    tilt is [+infinity]; when the other tilt and the spine angle are
    numbers the result is score 0 with the message of the tilt rule that
    fires. *)
Theorem infinite_tilt_scores_zero keypoints leftShoulder rightShoulder leftHip rightHip :
  validated keypoints leftShoulder rightShoulder leftHip rightHip ->
  is_nan (spineAngle atan2 leftShoulder rightShoulder leftHip rightHip) = false ->
  ((Math.abs (x leftShoulder - x rightShoulder) =? 0) = true ->
   (0 <? Math.abs (y leftShoulder - y rightShoulder)) = true ->
   is_nan (tilt leftHip rightHip) = false ->
   analyzePosture atan2 keypoints
   = mkStatus 0 "Straighten your shoulders" destructive)
  /\ ((Math.abs (x leftHip - x rightHip) =? 0) = true ->
      (0 <? Math.abs (y leftHip - y rightHip)) = true ->
      is_nan (tilt leftShoulder rightShoulder) = false ->
      analyzePosture atan2 keypoints
      = if tilt leftShoulder rightShoulder >? 15
        then mkStatus 0 "Straighten your shoulders" destructive
        else mkStatus 0 "Adjust your sitting posture" warning).
Proof.
  intros Hv Nsa. rewrite (analyzePosture_validated _ _ _ _ _ Hv).
  pose proof (spineAngle_unsigned leftShoulder rightShoulder leftHip rightHip)
    as Usa.
  split.
  - intros Hw Hd Nht. rewrite (tilt_infinite _ _ Hw Hd).
    rewrite (aggregate_infinite_shoulder _ _ (tilt_unsigned _ _) Usa Nht Nsa).
    reflexivity.
  - intros Hw Hd Nst. rewrite (tilt_infinite _ _ Hw Hd).
    rewrite (aggregate_infinite_hip _ _ (tilt_unsigned _ _) Usa Nst Nsa).
    unfold feedback. now destruct (tilt leftShoulder rightShoulder >? 15).
Qed.

(** At a zero width the score is 0 with a tilt message, unless it is
    NaN: NaN is the only way in which a zero width misses score 0. *)
Lemma zero_width_score keypoints leftShoulder rightShoulder leftHip rightHip :
  validated keypoints leftShoulder rightShoulder leftHip rightHip ->
  is_zero (Math.abs (x leftShoulder - x rightShoulder)) = true
  \/ is_zero (Math.abs (x leftHip - x rightHip)) = true ->
  status_score (analyzePosture atan2 keypoints) = nan
  \/ (status_score (analyzePosture atan2 keypoints) = 0
      /\ (message (analyzePosture atan2 keypoints)
          = "Straighten your shoulders"
          \/ message (analyzePosture atan2 keypoints)
             = "Adjust your sitting posture")).
Proof.
  intros Hv Hw. rewrite (analyzePosture_validated _ _ _ _ _ Hv).
  rewrite feedback_score.
  set (st := tilt leftShoulder rightShoulder).
  set (ht := tilt leftHip rightHip).
  set (sa := spineAngle atan2 leftShoulder rightShoulder leftHip rightHip).
  pose proof (tilt_unsigned leftShoulder rightShoulder) as Ust.
  pose proof (tilt_unsigned leftHip rightHip) as Uht.
  pose proof (spineAngle_unsigned leftShoulder rightShoulder leftHip rightHip)
    as Usa.
  fold st in Ust. fold ht in Uht. fold sa in Usa.
  destruct (is_nan st) eqn:Nst;
    [left; now rewrite (is_nan_true _ Nst), aggregate_nan_shoulder|].
  destruct (is_nan ht) eqn:Nht;
    [left; now rewrite (is_nan_true _ Nht), aggregate_nan_hip|].
  destruct (is_nan sa) eqn:Nsa;
    [left; now rewrite (is_nan_true _ Nsa), aggregate_nan_spine|].
  right. destruct Hw as [Hw|Hw].
  - destruct (tilt_zero_width _ _ Hw) as [E|E]; fold st in E;
      [rewrite E in Nst; discriminate|].
    rewrite E, (aggregate_infinite_shoulder _ _ Uht Usa Nht Nsa).
    split; [reflexivity|left; reflexivity].
  - destruct (tilt_zero_width _ _ Hw) as [E|E]; fold ht in E;
      [rewrite E in Nht; discriminate|].
    rewrite E, (aggregate_infinite_hip _ _ Ust Usa Nst Nsa).
    split; [reflexivity|]. unfold feedback.
    destruct (st >? 15); [left|right]; reflexivity.
Qed.

(** *** The score formula *)

Lemma raw_score_not_neg_zero (st ht sa : float) :
  Prim2SF (100 - st * 2 - ht * 2 - sa * 0.5) <> S754_zero true.
Proof.
  do 3 apply sub_not_neg_zero. discriminate.
Qed.

(** C5: after validation the returned score is the score of the
    specification: the penalty sum of the three features, clamped to
    [[0,100]] and rounded to the nearest integer (for every validated
    input, degenerate widths included). *)
Theorem score_formula keypoints leftShoulder rightShoulder leftHip rightHip :
  validated keypoints leftShoulder rightShoulder leftHip rightHip ->
  status_score (analyzePosture atan2 keypoints)
  = spec_score atan2 leftShoulder rightShoulder leftHip rightHip.
Proof.
  intros Hv. rewrite (analyzePosture_validated _ _ _ _ _ Hv).
  rewrite feedback_score, aggregate_eq.
  rewrite clamp_eq by apply raw_score_not_neg_zero.
  reflexivity.
Qed.

(** *** Monotonicity *)

(** C9: on non-negative features, raising the shoulder tilt, the hip tilt
    or the spine angle alone never raises the clamped aggregate score. *)
Theorem aggregate_monotone (shoulderTilt hipTilt spine larger : float) :
  (0 <=? shoulderTilt) = true -> (0 <=? hipTilt) = true ->
  (0 <=? spine) = true ->
  ((shoulderTilt <=? larger) = true ->
   (aggregate larger hipTilt spine <=? aggregate shoulderTilt hipTilt spine)
   = true)
  /\ ((hipTilt <=? larger) = true ->
      (aggregate shoulderTilt larger spine
       <=? aggregate shoulderTilt hipTilt spine) = true)
  /\ ((spine <=? larger) = true ->
      (aggregate shoulderTilt hipTilt larger
       <=? aggregate shoulderTilt hipTilt spine) = true).
Proof.
  intros Pst Pht Psa.
  assert (R : forall v, (0 <=? v) = true -> (v <=? v) = true).
  { intros v Hv. destruct (leb_not_nan _ _ Hv) as [_ Nv].
    apply leb_FX; auto. lra. }
  repeat split; intros H; apply aggregate_antitone; auto.
Qed.

(** C10, as amended: when a tilt rule fires on a validated input the
    returned score is still the rounded clamped aggregate; under
    "Straighten your shoulders" it is never above 70, and it is 60 at the
    example of the specification (where [Math.atan2] of the vertical
    direction is pi/2). *)
Theorem override_keeps_score keypoints leftShoulder rightShoulder leftHip rightHip :
  validated keypoints leftShoulder rightShoulder leftHip rightHip ->
  (tilt leftShoulder rightShoulder >? 15) = true
  \/ (tilt leftHip rightHip >? 15) = true ->
  status_score (analyzePosture atan2 keypoints)
  = Math.round
      (aggregate (tilt leftShoulder rightShoulder) (tilt leftHip rightHip)
         (spineAngle atan2 leftShoulder rightShoulder leftHip rightHip))
  /\ (message (analyzePosture atan2 keypoints) = "Straighten your shoulders" ->
      (status_score (analyzePosture atan2 keypoints) >? 70) = false)
  /\ (atan2 90 0 = Math.PI / 2 ->
      analyzePosture atan2 tilted_shoulders
      = mkStatus 60 "Straighten your shoulders" destructive).
Proof.
  intros Hv _. split; [|split].
  - rewrite (analyzePosture_validated _ _ _ _ _ Hv). apply feedback_score.
  - apply straighten_score_le_70.
  - intros Hup.
    rewrite (analyzePosture_validated tilted_shoulders
               (kp "left_shoulder" 0 0 0.9) (kp "right_shoulder" 100 20 0.9)
               (kp "left_hip" 0 100 0.9) (kp "right_hip" 100 100 0.9))
      by (repeat split; reflexivity).
    unfold spineAngle. cbn [x y px py kp].
    change ((0 + 100) / 2 - (0 + 100) / 2) with 0.
    change ((100 + 100) / 2 - (0 + 20) / 2) with 90.
    rewrite Hup. reflexivity.
Qed.

(** *** Examples that depend on [Math.atan2] along the axes *)

(** The thresholds 80 and 60 are compared with the aggregate before it is
    rounded: an aggregate of 80.25 is "Good posture detected!" with a
    returned score of 80. *)
Lemma good_posture_with_score_80 :
  atan2 100 0 = Math.PI / 2 ->
  analyzePosture atan2 slightly_tilted
  = mkStatus 80 "Good posture detected!" success.
Proof.
  intros Hup.
  rewrite (analyzePosture_validated slightly_tilted
             (kp "left_shoulder" 0 0 0.9) (kp "right_shoulder" 100 9.875 0.9)
             (kp "left_hip" 0 104.9375 0.9) (kp "right_hip" 100 104.9375 0.9))
    by (repeat split; reflexivity).
  unfold spineAngle. cbn [x y px py kp].
  change ((0 + 100) / 2 - (0 + 100) / 2) with 0.
  change ((104.9375 + 104.9375) / 2 - (0 + 9.875) / 2) with 100.
  rewrite Hup. reflexivity.
Qed.

(** The same at the other threshold: an aggregate of 60.25 is "Minor
    adjustments needed" with a returned score of 60. *)
Lemma minor_adjustments_with_score_60 :
  atan2 100 0 = Math.PI / 2 ->
  analyzePosture atan2 tilted_to_60
  = mkStatus 60 "Minor adjustments needed" warning.
Proof.
  intros Hup.
  rewrite (analyzePosture_validated tilted_to_60
             (kp "left_shoulder" 0 0 0.9) (kp "right_shoulder" 100 9.9375 0.9)
             (kp "left_hip" 0 100 0.9) (kp "right_hip" 100 109.9375 0.9))
    by (repeat split; reflexivity).
  unfold spineAngle. cbn [x y px py kp].
  change ((0 + 100) / 2 - (0 + 100) / 2) with 0.
  change ((100 + 109.9375) / 2 - (0 + 9.9375) / 2) with 100.
  rewrite Hup. reflexivity.
Qed.

(** The level, upright subject of the specification. *)
Lemma upright_is_good :
  atan2 90 0 = Math.PI / 2 ->
  analyzePosture atan2 upright
  = mkStatus 100 "Good posture detected!" success.
Proof.
  intros Hup.
  rewrite (analyzePosture_validated upright
             (kp "left_shoulder" 0 10 0.9) (kp "right_shoulder" 100 10 0.9)
             (kp "left_hip" 0 100 0.9) (kp "right_hip" 100 100 0.9))
    by (repeat split; reflexivity).
  unfold spineAngle. cbn [x y px py kp].
  change ((0 + 100) / 2 - (0 + 100) / 2) with 0.
  change ((100 + 100) / 2 - (10 + 10) / 2) with 90.
  rewrite Hup. reflexivity.
Qed.




End Facts.

(** ** Counterexamples *)

Lemma gtb_70_80 (v : float) : (v >? 70) = false -> (v >? 80) = false.
Proof.
  unfold gtb. intros H. destruct (is_nan v) eqn:N.
  - rewrite (is_nan_true _ N). reflexivity.
  - pose proof FX_constants as (Z0 & C1 & C2 & C3 & C4 & C5 & C6).
    apply ltb_false_of_le; auto.
    destruct (Rle_or_lt (FX v) (FX 70)) as [L|L]; [lra|].
    apply (ltb_FX 70 v eq_refl N) in L. congruence.
Qed.

(** C2 (the code at the failing input): the hips are found with
    confidence 0.9 at one and the same place, the hip width is zero, the
    hip tilt is 0/0, and the score of the result is NaN instead of 0. *)
Lemma coincident_hips_score_nan :
  find_keypoint "left_hip" coincident_hips = Some (kp "left_hip" 50 100 0.9)
  /\ find_keypoint "right_hip" coincident_hips
     = Some (kp "right_hip" 50 100 0.9)
  /\ Math.abs (50 - 50) = 0
  /\ forall atan2,
       analyzePosture atan2 coincident_hips
       = mkStatus nan "Poor posture - sit up straight" destructive.
Proof.
  repeat split. intros atan2.
  rewrite (analyzePosture_validated atan2 coincident_hips
             (kp "left_shoulder" 0 10 0.9) (kp "right_shoulder" 100 10 0.9)
             (kp "left_hip" 50 100 0.9) (kp "right_hip" 50 100 0.9))
    by (repeat split; reflexivity).
  change (tilt (kp "left_hip" 50 100 0.9) (kp "right_hip" 50 100 0.9)) with nan.
  rewrite aggregate_nan_hip. reflexivity.
Qed.

(** C3 fails on an absent confidence: the left shoulder is found without
    a confidence, and the analysis goes on to the tilt rules. *)
Lemma absent_confidence_passes_gate :
  find_keypoint "left_shoulder" absent_confidence
  = Some (mkKeypoint "left_shoulder" 0 0 None)
  /\ forall atan2,
       message (analyzePosture atan2 absent_confidence)
       = "Straighten your shoulders"
       /\ analyzePosture atan2 absent_confidence
          <> mkStatus 0 "Move closer or improve lighting" warning.
Proof.
  split; [reflexivity|]. intros atan2.
  assert (E : message (analyzePosture atan2 absent_confidence)
              = "Straighten your shoulders").
  { rewrite (analyzePosture_validated atan2 absent_confidence
               (mkKeypoint "left_shoulder" 0 0 None)
               (kp "right_shoulder" 100 20 0.9)
               (kp "left_hip" 0 100 0.9) (kp "right_hip" 100 100 0.9))
      by (repeat split; reflexivity).
    reflexivity. }
  split; [exact E|]. intros H. rewrite H in E. discriminate.
Qed.

(** C4 fails when its [score] is the score of the result: on these two
    validated inputs no tilt is above 15; the first is "Good posture
    detected!" with a score of 80, which is not above 80, and the second
    is "Minor adjustments needed" with a score of 60, which is not above
    60. *)
Lemma returned_score_misses_rule_table :
  (validated slightly_tilted
     (kp "left_shoulder" 0 0 0.9) (kp "right_shoulder" 100 9.875 0.9)
     (kp "left_hip" 0 104.9375 0.9) (kp "right_hip" 100 104.9375 0.9)
   /\ (tilt (kp "left_shoulder" 0 0 0.9) (kp "right_shoulder" 100 9.875 0.9)
       >? 15) = false
   /\ (tilt (kp "left_hip" 0 104.9375 0.9) (kp "right_hip" 100 104.9375 0.9)
       >? 15) = false
   /\ (forall atan2, atan2 100 0 = Math.PI / 2 ->
       analyzePosture atan2 slightly_tilted
       = mkStatus 80 "Good posture detected!" success)
   /\ analyzePosture atan2_axes slightly_tilted
      = mkStatus 80 "Good posture detected!" success
   /\ (80 >? 80) = false /\ (80 >? 60) = true)
  /\ (validated tilted_to_60
        (kp "left_shoulder" 0 0 0.9) (kp "right_shoulder" 100 9.9375 0.9)
        (kp "left_hip" 0 100 0.9) (kp "right_hip" 100 109.9375 0.9)
      /\ (tilt (kp "left_shoulder" 0 0 0.9)
            (kp "right_shoulder" 100 9.9375 0.9) >? 15) = false
      /\ (tilt (kp "left_hip" 0 100 0.9) (kp "right_hip" 100 109.9375 0.9)
          >? 15) = false
      /\ (forall atan2, atan2 100 0 = Math.PI / 2 ->
          analyzePosture atan2 tilted_to_60
          = mkStatus 60 "Minor adjustments needed" warning)
      /\ analyzePosture atan2_axes tilted_to_60
         = mkStatus 60 "Minor adjustments needed" warning
      /\ (60 >? 60) = false).
Proof.
  split.
  - split; [repeat split; reflexivity|].
    repeat (split; [reflexivity|]).
    split; [exact good_posture_with_score_80|].
    repeat split; reflexivity.
  - split; [repeat split; reflexivity|].
    repeat (split; [reflexivity|]).
    split; [exact minor_adjustments_with_score_60|].
    repeat split; reflexivity.
Qed.


(** C10 fails in its last part: no result with the message "Straighten
    your shoulders" carries a score above 80; the example of the
    specification carries 60. *)
Lemma straighten_never_above_80 :
  (forall atan2 keypoints,
      message (analyzePosture atan2 keypoints) = "Straighten your shoulders" ->
      (status_score (analyzePosture atan2 keypoints) >? 80) = false)
  /\ analyzePosture atan2_axes tilted_shoulders
     = mkStatus 60 "Straighten your shoulders" destructive.
Proof.
  split; [|reflexivity].
  intros atan2 keypoints H. apply gtb_70_80.
  now apply straighten_score_le_70.
Qed.

(** ** The theorems at concrete inputs *)

Lemma infinite_tilt_scores_zero_witness :
  analyzePosture atan2_axes stacked_shoulders
  = mkStatus 0 "Straighten your shoulders" destructive
  /\ analyzePosture atan2_axes stacked_hips
     = mkStatus 0 "Adjust your sitting posture" warning.
Proof.
  split.
  - apply (proj1 (infinite_tilt_scores_zero atan2_axes stacked_shoulders
             (kp "left_shoulder" 50 0 0.9) (kp "right_shoulder" 50 20 0.9)
             (kp "left_hip" 0 100 0.9) (kp "right_hip" 100 100 0.9)
             ltac:(repeat split; reflexivity) eq_refl)); reflexivity.
  - apply (proj2 (infinite_tilt_scores_zero atan2_axes stacked_hips
             (kp "left_shoulder" 0 10 0.9) (kp "right_shoulder" 100 10 0.9)
             (kp "left_hip" 50 100 0.9) (kp "right_hip" 50 130 0.9)
             ltac:(repeat split; reflexivity) eq_refl)); reflexivity.
Defined.

Lemma low_confidence_gate_witness :
  analyzePosture atan2_axes low_confidence
  = mkStatus 0 "Move closer or improve lighting" warning
  /\ severity (analyzePosture atan2_axes low_confidence) = WARNING.
Proof.
  apply (low_confidence_gate atan2_axes low_confidence
           (kp "left_shoulder" 0 10 0.9) (kp "right_shoulder" 100 10 0.9)
           (kp "left_hip" 0 100 0.1) (kp "right_hip" 100 100 0.9)
           eq_refl eq_refl eq_refl eq_refl).
  exists (kp "left_hip" 0 100 0.1), 0.1.
  split; [simpl; tauto|]. split; reflexivity.
Defined.

Lemma classification_rules_witness :
  (status_score (analyzePosture atan2_axes tilted_shoulders) = 60
   /\ message (analyzePosture atan2_axes tilted_shoulders)
      = "Straighten your shoulders"
   /\ severity (analyzePosture atan2_axes tilted_shoulders) = CRITICAL)
  /\ (message (analyzePosture atan2_axes stacked_hips)
      = "Adjust your sitting posture"
      /\ severity (analyzePosture atan2_axes stacked_hips) = WARNING)
  /\ (status_score (analyzePosture atan2_axes slightly_tilted) = 80
      /\ message (analyzePosture atan2_axes slightly_tilted)
         = "Good posture detected!"
      /\ severity (analyzePosture atan2_axes slightly_tilted) = OK)
  /\ (status_score (analyzePosture atan2_axes tilted_by_10) = 80
      /\ message (analyzePosture atan2_axes tilted_by_10)
         = "Minor adjustments needed"
      /\ severity (analyzePosture atan2_axes tilted_by_10) = WARNING)
  /\ (status_score (analyzePosture atan2_axes poor_posture) = 50
      /\ message (analyzePosture atan2_axes poor_posture)
         = "Poor posture - sit up straight"
      /\ severity (analyzePosture atan2_axes poor_posture) = CRITICAL).
Proof.
  split; [|split; [|split; [|split]]].
  - destruct (classification_rules atan2_axes tilted_shoulders
                (kp "left_shoulder" 0 0 0.9) (kp "right_shoulder" 100 20 0.9)
                (kp "left_hip" 0 100 0.9) (kp "right_hip" 100 100 0.9)
                ltac:(repeat split; reflexivity))
      as (S & R3 & _).
    split; [rewrite S; reflexivity|apply R3; reflexivity].
  - destruct (classification_rules atan2_axes stacked_hips
                (kp "left_shoulder" 0 10 0.9) (kp "right_shoulder" 100 10 0.9)
                (kp "left_hip" 50 100 0.9) (kp "right_hip" 50 130 0.9)
                ltac:(repeat split; reflexivity))
      as (_ & _ & R4 & _).
    apply R4; reflexivity.
  - destruct (classification_rules atan2_axes slightly_tilted
                (kp "left_shoulder" 0 0 0.9) (kp "right_shoulder" 100 9.875 0.9)
                (kp "left_hip" 0 104.9375 0.9)
                (kp "right_hip" 100 104.9375 0.9)
                ltac:(repeat split; reflexivity))
      as (S & _ & _ & R5 & _).
    split; [rewrite S; reflexivity|apply R5; reflexivity].
  - destruct (classification_rules atan2_axes tilted_by_10
                (kp "left_shoulder" 0 0 0.9) (kp "right_shoulder" 100 10 0.9)
                (kp "left_hip" 0 95 0.9) (kp "right_hip" 100 95 0.9)
                ltac:(repeat split; reflexivity))
      as (S & _ & _ & _ & R6 & _).
    split; [rewrite S; reflexivity|apply R6; reflexivity].
  - destruct (classification_rules atan2_axes poor_posture
                (kp "left_shoulder" 0 0 0.9) (kp "right_shoulder" 64 8 0.9)
                (kp "left_hip" 0 100 0.9) (kp "right_hip" 64 108 0.9)
                ltac:(repeat split; reflexivity))
      as (S & _ & _ & _ & _ & R7).
    split; [rewrite S; reflexivity|apply R7; reflexivity].
Defined.

Lemma score_formula_witness :
  status_score (analyzePosture atan2_axes tilted_by_10)
  = spec_score atan2_axes
      (kp "left_shoulder" 0 0 0.9) (kp "right_shoulder" 100 10 0.9)
      (kp "left_hip" 0 95 0.9) (kp "right_hip" 100 95 0.9)
  /\ spec_score atan2_axes
       (kp "left_shoulder" 0 0 0.9) (kp "right_shoulder" 100 10 0.9)
       (kp "left_hip" 0 95 0.9) (kp "right_hip" 100 95 0.9) = 80.
Proof.
  split; [|reflexivity].
  apply (score_formula atan2_axes tilted_by_10).
  repeat split; reflexivity.
Defined.

Lemma missing_landmark_and_first_match_witness :
  (analyzePosture atan2_axes missing_hip
   = mkStatus 0 "Position yourself in frame" warning
   /\ severity (analyzePosture atan2_axes missing_hip) = WARNING)
  /\ find_keypoint "left_shoulder" missing_hip
     = Some (kp "left_shoulder" 0 10 0.9).
Proof.
  split.
  - apply (proj1 (missing_landmark_and_first_match atan2_axes missing_hip)).
    exists "right_hip". split; [simpl; tauto|].
    intros k Hin. simpl in Hin.
    destruct Hin as [<-|[<-|[<-|[<-|[]]]]]; discriminate.
  - apply (proj2 (missing_landmark_and_first_match atan2_axes missing_hip)
             "left_shoulder" [] (kp "left_shoulder" 0 10 0.9)
             [kp "right_shoulder" 100 10 0.9; kp "left_shoulder" 7 7 0.2;
              kp "left_hip" 0 100 0.9] eq_refl eq_refl).
    intros k' [].
Defined.

Lemma aggregate_monotone_witness :
  (aggregate 10 3 4 <=? aggregate 5 3 4) = true
  /\ (aggregate 5 10 4 <=? aggregate 5 3 4) = true
  /\ (aggregate 5 3 10 <=? aggregate 5 3 4) = true.
Proof.
  destruct (aggregate_monotone 5 3 4 10 eq_refl eq_refl eq_refl)
    as (H1 & H2 & H3).
  split; [apply H1|split; [apply H2|apply H3]]; reflexivity.
Defined.

Lemma override_keeps_score_witness :
  status_score (analyzePosture atan2_axes tilted_shoulders)
  = Math.round
      (aggregate
         (tilt (kp "left_shoulder" 0 0 0.9) (kp "right_shoulder" 100 20 0.9))
         (tilt (kp "left_hip" 0 100 0.9) (kp "right_hip" 100 100 0.9))
         (spineAngle atan2_axes
            (kp "left_shoulder" 0 0 0.9) (kp "right_shoulder" 100 20 0.9)
            (kp "left_hip" 0 100 0.9) (kp "right_hip" 100 100 0.9)))
  /\ (status_score (analyzePosture atan2_axes tilted_shoulders) >? 70) = false
  /\ analyzePosture atan2_axes tilted_shoulders
     = mkStatus 60 "Straighten your shoulders" destructive.
Proof.
  destruct (override_keeps_score atan2_axes tilted_shoulders
              (kp "left_shoulder" 0 0 0.9) (kp "right_shoulder" 100 20 0.9)
              (kp "left_hip" 0 100 0.9) (kp "right_hip" 100 100 0.9)
              ltac:(repeat split; reflexivity) (or_introl eq_refl))
    as (H1 & H2 & H3).
  split; [exact H1|]. split; [apply H2; reflexivity|apply H3; reflexivity].
Defined.



(** * Further properties of the analysis *)

(** ** The score and the features *)

Lemma raw_score_not_nan (st ht sa : float) :
  unsigned st -> unsigned ht -> unsigned sa ->
  is_nan st = false -> is_nan ht = false -> is_nan sa = false ->
  is_nan (100 - st * 2 - ht * 2 - sa * 0.5) = false.
Proof.
  intros Ust Uht Usa Nst Nht Nsa.
  pose proof (unsigned_FX _ Ust Nst). pose proof (unsigned_FX _ Uht Nht).
  pose proof (unsigned_FX _ Usa Nsa).
  destruct (raw_score_mono st st ht ht sa sa) as (N & _); auto; lra.
Qed.

Lemma integer_score_not_nan (v : float) : integer_score v -> is_nan v = false.
Proof. intros [F _]. now apply finite_not_nan. Qed.

(** A hip tilt above 15 costs 30 points or more as well. *)
Lemma aggregate_hip_above_15 (st ht sa : float) :
  unsigned st -> unsigned sa -> (ht >? 15) = true ->
  aggregate st ht sa = nan
  \/ (SFfinite (Prim2SF (aggregate st ht sa)) = true
      /\ (FX (aggregate st ht sa) <= FX 70)%R).
Proof.
  intros Ust Usa Hht.
  destruct (is_nan st) eqn:Nst;
    [left; rewrite (is_nan_true _ Nst); apply aggregate_nan_shoulder|].
  destruct (is_nan sa) eqn:Nsa;
    [left; rewrite (is_nan_true _ Nsa); apply aggregate_nan_spine|].
  right. unfold gtb in Hht.
  destruct (ltb_not_nan _ _ Hht) as [_ Nht].
  apply (ltb_FX 15 ht eq_refl Nht) in Hht.
  pose proof (unsigned_FX _ Ust Nst) as Pst.
  pose proof (unsigned_FX _ Usa Nsa) as Psa.
  pose proof FX_constants as (Z0 & C1 & C2 & C3 & C4 & C5 & C6).
  destruct (raw_score_mono st 0 ht 15 sa 0) as (N & _ & M & _);
    auto; try (rewrite ?Z0; lra).
  change (100 - 0 * 2 - 15 * 2 - 0 * 0.5) with 70 in M.
  rewrite aggregate_eq.
  destruct (clamp_finite _ N) as [F _]. split; [exact F|].
  rewrite (proj2 (clamp_FX _ N)).
  apply Rmax_lub; [lra|].
  apply Rle_trans with (FX (100 - st * 2 - ht * 2 - sa * 0.5));
    [apply Rmin_r|exact M].
Qed.

(** The clamped aggregate is NaN or a number of [[0,100]]. *)
Lemma aggregate_cases (st ht sa : float) :
  aggregate st ht sa = nan
  \/ (SFfinite (Prim2SF (aggregate st ht sa)) = true
      /\ (FX 0 <= FX (aggregate st ht sa) <= FX 100)%R).
Proof.
  rewrite aggregate_eq.
  destruct (is_nan (100 - st * 2 - ht * 2 - sa * 0.5)) eqn:N.
  - left. now rewrite (is_nan_true _ N).
  - right. now apply clamp_finite.
Qed.

(** What [feedback] returns under each message, for a clamped score [sc]
    that loses 30 points or more when a tilt is above 15. *)
Lemma feedback_bands (st ht sc : float) :
  sc = nan
  \/ (SFfinite (Prim2SF sc) = true /\ (FX 0 <= FX sc <= FX 100)%R) ->
  ((st >? 15) = true \/ (ht >? 15) = true ->
   sc = nan \/ (FX sc <= FX 70)%R) ->
  let r := feedback st ht sc in
  (message r = "Good posture detected!" ->
   is_nan (status_score r) = false
   /\ (FX 80 <= FX (status_score r) <= FX 100)%R)
  /\ (message r = "Minor adjustments needed" ->
      is_nan (status_score r) = false
      /\ (FX 60 <= FX (status_score r) <= FX 80)%R)
  /\ (message r = "Poor posture - sit up straight" ->
      status_score r = nan
      \/ (is_nan (status_score r) = false
          /\ (FX (status_score r) <= FX 60)%R))
  /\ (message r = "Straighten your shoulders"
      \/ message r = "Adjust your sitting posture" ->
      status_score r = nan
      \/ (is_nan (status_score r) = false
          /\ (FX (status_score r) <= FX 70)%R)).
Proof.
  intros Hsc Htilt r.
  assert (Mono : forall c : float,
             SFfinite (Prim2SF c) = true -> Math.round c = c ->
             sc <> nan ->
             ((FX c <= FX sc)%R -> (FX c <= FX (Math.round sc))%R)
             /\ ((FX sc <= FX c)%R -> (FX (Math.round sc) <= FX c)%R)
             /\ is_nan (Math.round sc) = false).
  { intros c Fc Ec Nsc. destruct Hsc as [E|[F _]]; [contradiction|].
    split; [|split].
    - intros H. rewrite <- Ec. now apply Math_round_mono.
    - intros H. rewrite <- Ec. now apply Math_round_mono.
    - apply finite_not_nan. now apply round_finite. }
  assert (Gt : forall c : float,
             is_nan c = false -> (sc >? c) = true ->
             sc <> nan /\ (FX c <= FX sc)%R).
  { intros c Nc H. unfold gtb in H.
    destruct (ltb_not_nan _ _ H) as [_ Nsc].
    apply (ltb_FX c sc Nc Nsc) in H. split; [|lra].
    intros E. rewrite E in Nsc. discriminate. }
  assert (Le : forall c : float,
             is_nan c = false -> (sc >? c) = false ->
             sc = nan \/ (sc <> nan /\ (FX sc <= FX c)%R)).
  { intros c Nc H. unfold gtb in H.
    destruct (is_nan sc) eqn:Nsc; [left; now apply is_nan_true|].
    right. split; [intros E; rewrite E in Nsc; discriminate|].
    destruct (Rle_or_lt (FX sc) (FX c)) as [L|L]; [exact L|].
    apply (ltb_FX c sc Nc Nsc) in L. congruence. }
  assert (U100 : sc <> nan -> (FX sc <= FX 100)%R).
  { intros Nsc. destruct Hsc as [E|[_ B]]; [contradiction|lra]. }
  assert (Tilt : (st >? 15) = true \/ (ht >? 15) = true ->
                 Math.round sc = nan
                 \/ (is_nan (Math.round sc) = false
                     /\ (FX (Math.round sc) <= FX 70)%R)).
  { intros H. destruct (Htilt H) as [E|B]; [left; now rewrite E|].
    destruct (is_nan sc) eqn:Nsc;
      [left; now rewrite (is_nan_true _ Nsc)|].
    assert (Nsc' : sc <> nan)
      by (intros E; rewrite E in Nsc; discriminate).
    destruct (Mono 70 eq_refl eq_refl Nsc') as (_ & M & N).
    right. split; [exact N|now apply M]. }
  unfold r, feedback.
  destruct (st >? 15) eqn:Hst.
  { cbn [message status_score].
    repeat split; try discriminate.
    intros _. apply Tilt. now left. }
  destruct (ht >? 15) eqn:Hht.
  { cbn [message status_score].
    repeat split; try discriminate.
    intros _. apply Tilt. now right. }
  destruct (sc >? 80) eqn:H80.
  { cbn [message status_score].
    destruct (Gt 80 eq_refl H80) as [Nsc B].
    destruct (Mono 80 eq_refl eq_refl Nsc) as (M1 & _ & N).
    destruct (Mono 100 eq_refl eq_refl Nsc) as (_ & M2 & _).
    repeat split; try discriminate; auto.
    intros [E|E]; discriminate. }
  destruct (sc >? 60) eqn:H60.
  { cbn [message status_score].
    destruct (Gt 60 eq_refl H60) as [Nsc B].
    destruct (Le 80 eq_refl H80) as [E|[_ B80]]; [contradiction|].
    destruct (Mono 60 eq_refl eq_refl Nsc) as (M1 & _ & N).
    destruct (Mono 80 eq_refl eq_refl Nsc) as (_ & M2 & _).
    repeat split; try discriminate; auto.
    intros [E|E]; discriminate. }
  cbn [message status_score].
  repeat split; try discriminate.
  - intros _. destruct (Le 60 eq_refl H60) as [E|[Nsc B]];
      [left; now rewrite E|].
    destruct (Mono 60 eq_refl eq_refl Nsc) as (_ & M & N).
    right. split; [exact N|now apply M].
  - intros [E|E]; discriminate.
Qed.
Section MoreFacts.

Variable atan2 : float -> float -> float.

(** The three shapes of a result: one of the two rejections, or the
    feedback on unsigned tilts and a clamped score. *)
Lemma analyzePosture_cases (keypoints : list Keypoint) :
  analyzePosture atan2 keypoints
  = mkStatus 0 "Position yourself in frame" warning
  \/ analyzePosture atan2 keypoints
     = mkStatus 0 "Move closer or improve lighting" warning
  \/ exists st ht sc,
       analyzePosture atan2 keypoints = feedback st ht sc
       /\ (sc = nan
           \/ (SFfinite (Prim2SF sc) = true /\ (FX 0 <= FX sc <= FX 100)%R))
       /\ ((st >? 15) = true \/ (ht >? 15) = true ->
           sc = nan \/ (FX sc <= FX 70)%R).
Proof.
  unfold analyzePosture.
  destruct (find_keypoint "left_shoulder" keypoints) as [ls|]; [|now left].
  destruct (find_keypoint "right_shoulder" keypoints) as [rs|]; [|now left].
  destruct (find_keypoint "left_hip" keypoints) as [lh|]; [|now left].
  destruct (find_keypoint "right_hip" keypoints) as [rh|]; [|now left].
  destruct (_ || _); [right; now left|].
  right. right. cbv zeta.
  exists (tilt ls rs), (tilt lh rh),
    (aggregate (tilt ls rs) (tilt lh rh) (spineAngle atan2 ls rs lh rh)).
  split; [reflexivity|]. split; [apply aggregate_cases|].
  pose proof (spineAngle_unsigned atan2 ls rs lh rh) as Usa.
  intros [H|H].
  - destruct (aggregate_above_15 _ _ _ (tilt_unsigned lh rh) Usa H)
      as [E|[_ B]]; auto.
  - destruct (aggregate_hip_above_15 _ _ _ (tilt_unsigned ls rs) Usa H)
      as [E|[_ B]]; auto.
Qed.

(** X2: after validation the score is NaN exactly when the shoulder tilt,
    the hip tilt or the spine angle is NaN; when none of them is, the score
    is an integer of [[0,100]] (an infinite feature included). *)
Theorem score_nan_iff_feature_nan keypoints leftShoulder rightShoulder leftHip rightHip :
  validated keypoints leftShoulder rightShoulder leftHip rightHip ->
  let shoulderTilt := tilt leftShoulder rightShoulder in
  let hipTilt := tilt leftHip rightHip in
  let spine := spineAngle atan2 leftShoulder rightShoulder leftHip rightHip in
  let result := analyzePosture atan2 keypoints in
  (is_nan shoulderTilt || is_nan hipTilt || is_nan spine = true ->
   status_score result = nan)
  /\ (is_nan shoulderTilt || is_nan hipTilt || is_nan spine = false ->
      integer_score (status_score result)).
Proof.
  intros Hv st ht sa result. unfold result.
  rewrite (analyzePosture_validated _ _ _ _ _ _ Hv), feedback_score.
  fold st ht sa. split; intros H.
  - apply orb_true_iff in H. destruct H as [H|H];
      [apply orb_true_iff in H; destruct H as [H|H]|];
      rewrite (is_nan_true _ H).
    + now rewrite aggregate_nan_shoulder.
    + now rewrite aggregate_nan_hip.
    + now rewrite aggregate_nan_spine.
  - apply orb_false_iff in H. destruct H as [H Nsa].
    apply orb_false_iff in H. destruct H as [Nst Nht].
    rewrite aggregate_eq. apply round_clamp_integer.
    apply raw_score_not_nan; auto;
      [apply tilt_unsigned|apply tilt_unsigned|apply spineAngle_unsigned].
Qed.

Lemma tilt_not_nan (l r : Keypoint) :
  (0 <? Math.abs (x l - x r)) = true ->
  (Math.abs (y l - y r) <? infinity) = true ->
  is_nan (tilt l r) = false.
Proof.
  intros Hw Hd. unfold tilt.
  destruct (ltb_not_nan _ _ Hw) as [_ Nw].
  destruct (ltb_not_nan _ _ Hd) as [Nd _].
  apply (ltb_FX 0 _ eq_refl Nw) in Hw.
  apply (ltb_FX _ infinity Nd eq_refl) in Hd.
  rewrite (proj1 FX_constants) in Hw.
  change (FX infinity) with (bpow 1024) in Hd.
  pose proof (unsigned_FX _ (unsigned_abs (y l - y r)) Nd) as Pd.
  pose proof (bpow_gt_0 1024).
  apply mul_pos_not_nan; [now apply pos_finite_intro|].
  apply div_not_nan; auto.
  apply finite_of_FX; [exact Nd|]. unfold Math.abs in *. lra.
Qed.

Lemma spineAngle_not_nan (ls rs lh rh : Keypoint) :
  is_nan (atan2 (py (midpoint lh rh) - py (midpoint ls rs))
                (px (midpoint lh rh) - px (midpoint ls rs))) = false ->
  is_nan (spineAngle atan2 ls rs lh rh) = false.
Proof.
  intros N. unfold spineAngle, Math.abs. rewrite abs_is_nan.
  apply sub_finite_l_not_nan; [reflexivity|]. rewrite abs_is_nan.
  apply div_pos_not_nan; [now apply pos_finite_intro|].
  apply mul_pos_not_nan; [now apply pos_finite_intro|].
  exact N.
Qed.

(** X3: on a validated input whose shoulders and hips have a width above
    zero and a finite vertical distance, and for which [Math.atan2] returns
    a number, the score is an integer of [[0,100]]. *)
Theorem score_integer_on_proper_input keypoints leftShoulder rightShoulder leftHip rightHip :
  validated keypoints leftShoulder rightShoulder leftHip rightHip ->
  (0 <? Math.abs (x leftShoulder - x rightShoulder)) = true ->
  (Math.abs (y leftShoulder - y rightShoulder) <? infinity) = true ->
  (0 <? Math.abs (x leftHip - x rightHip)) = true ->
  (Math.abs (y leftHip - y rightHip) <? infinity) = true ->
  is_nan (atan2 (py (midpoint leftHip rightHip)
                 - py (midpoint leftShoulder rightShoulder))
                (px (midpoint leftHip rightHip)
                 - px (midpoint leftShoulder rightShoulder))) = false ->
  integer_score (status_score (analyzePosture atan2 keypoints)).
Proof.
  intros Hv Hsw Hsd Hhw Hhd Na.
  rewrite (analyzePosture_validated _ _ _ _ _ _ Hv), feedback_score.
  rewrite aggregate_eq. apply round_clamp_integer.
  apply raw_score_not_nan;
    auto using tilt_unsigned, spineAngle_unsigned, tilt_not_nan,
      spineAngle_not_nan.
Qed.

(** X4: the score that goes with each message.  "Good posture detected!"
    comes with a score from 80 to 100, "Minor adjustments needed" with one
    from 60 to 80, "Poor posture - sit up straight" with NaN or at most 60,
    a tilt message with NaN or at most 70, and a rejection with 0. *)
Theorem score_band_of_message (keypoints : list Keypoint) :
  let result := analyzePosture atan2 keypoints in
  (message result = "Good posture detected!" ->
   (status_score result >=? 80) = true
   /\ (status_score result <=? 100) = true)
  /\ (message result = "Minor adjustments needed" ->
      (status_score result >=? 60) = true
      /\ (status_score result <=? 80) = true)
  /\ (message result = "Poor posture - sit up straight" ->
      (status_score result >? 60) = false)
  /\ (message result = "Straighten your shoulders"
      \/ message result = "Adjust your sitting posture" ->
      (status_score result >? 70) = false)
  /\ (message result = "Position yourself in frame"
      \/ message result = "Move closer or improve lighting" ->
      status_score result = 0).
Proof.
  intros result. unfold result.
  assert (NotAbove : forall v c : float,
             is_nan c = false ->
             v = nan \/ (is_nan v = false /\ (FX v <= FX c)%R) ->
             (v >? c) = false).
  { intros v c Nc [E|[Nv B]]; unfold gtb.
    - rewrite E. apply ltb_nan_r.
    - now apply ltb_false_of_le. }
  destruct (analyzePosture_cases keypoints)
    as [E|[E|(st & ht & sc & E & Hsc & Htilt)]]; rewrite E.
  - cbn [message status_score].
    repeat split; try discriminate; intros [H|H]; discriminate.
  - cbn [message status_score].
    repeat split; try discriminate; intros [H|H]; discriminate.
  - destruct (feedback_bands st ht sc Hsc Htilt) as (G & M & P & T).
    split; [|split; [|split; [|split]]].
    + intros H. destruct (G H) as [N [L U]]. unfold geb.
      split; apply leb_FX; auto.
    + intros H. destruct (M H) as [N [L U]]. unfold geb.
      split; apply leb_FX; auto.
    + intros H. apply NotAbove; auto.
    + intros H. apply NotAbove; auto.
    + unfold feedback.
      destruct (st >? 15), (ht >? 15), (sc >? 80), (sc >? 60);
        cbn [message]; intros [H|H]; discriminate.
Qed.

(** X5: the colour of the score follows the colour of the message at both
    ends: under a green message the score is shown green, and under a red
    message it is never shown green; a NaN score is shown red. *)
Theorem score_colour_follows_message (keypoints : list Keypoint) :
  let result := analyzePosture atan2 keypoints in
  (getMessageColor (color result) = "text-success" ->
   getScoreColor (status_score result) = "text-success")
  /\ (getMessageColor (color result) = "text-destructive" ->
      getScoreColor (status_score result) <> "text-success")
  /\ (status_score result = nan ->
      getScoreColor (status_score result) = "text-destructive").
Proof.
  intros result. unfold result.
  apply and_assoc. split; [|intros H; now rewrite H].
  destruct (analyzePosture_cases keypoints)
    as [E|[E|(st & ht & sc & E & Hsc & Htilt)]]; rewrite E.
  - cbn [color getMessageColor]. split; discriminate.
  - cbn [color getMessageColor]. split; discriminate.
  - destruct (feedback_bands st ht sc Hsc Htilt) as (G & _ & P & T).
    pose proof FX_constants as (Z0 & C1 & C2 & C3 & C4 & C5 & C6).
    assert (Red : forall v : float,
               v = nan
               \/ (is_nan v = false /\ (FX v <= FX 70)%R) ->
               getScoreColor v <> "text-success").
    { intros v Hv. unfold getScoreColor, geb.
      assert (L : (80 <=? v) = false).
      { destruct Hv as [Ev|[Nv B]]; [now rewrite Ev|].
        destruct (80 <=? v) eqn:L; [|reflexivity].
        apply (leb_FX 80 v eq_refl Nv) in L. lra. }
      rewrite L. destruct (60 <=? v); discriminate. }
    revert G P T. unfold feedback.
    destruct (st >? 15); [|destruct (ht >? 15);
      [|destruct (sc >? 80); [|destruct (sc >? 60)]]];
      cbn [message color status_score getMessageColor]; intros G P T;
      split; try discriminate; intros _.
    + apply Red, T. now left.
    + destruct (G eq_refl) as [N [L U]].
      unfold getScoreColor, geb.
      now rewrite (proj2 (leb_FX 80 _ eq_refl N) L).
    + apply Red. destruct (P eq_refl) as [Ev|[N B]]; [now left|].
      right. split; [exact N|lra].
Qed.

(** ** Order and labels *)

Lemma find_keypoint_permutation (n : string) (l l' : list Keypoint) :
  NoDup (map name l) -> Permutation l l' ->
  find_keypoint n l = find_keypoint n l'.
Proof.
  intros Hnd Hp. unfold find_keypoint.
  induction Hp as [|k l l' Hp IH|k1 k2 l|l l' l'' Hp1 IH1 Hp2 IH2].
  - reflexivity.
  - simpl. inversion Hnd; subst.
    destruct (String.eqb (name k) n); [reflexivity|now apply IH].
  - simpl. inversion Hnd as [|? ? Hnotin _]; subst.
    destruct (String.eqb_spec (name k1) n) as [E1|_];
      destruct (String.eqb_spec (name k2) n) as [E2|_]; try reflexivity.
    destruct Hnotin. left. congruence.
  - rewrite IH1 by exact Hnd. apply IH2.
    apply (Permutation_NoDup (Permutation_map name Hp1) Hnd).
Qed.

(** X6: when no two keypoints carry the same name, the result does not
    depend on the order in which the keypoints come. *)
Theorem analyzePosture_permutation (keypoints keypoints' : list Keypoint) :
  NoDup (map name keypoints) -> Permutation keypoints keypoints' ->
  analyzePosture atan2 keypoints' = analyzePosture atan2 keypoints.
Proof.
  intros Hnd Hp. unfold analyzePosture.
  now rewrite !(find_keypoint_permutation _ _ _ Hnd Hp).
Qed.

Lemma tilt_swap (l r : Keypoint) : tilt l r = tilt r l.
Proof.
  unfold tilt, Math.abs.
  now rewrite (abs_sub_swap (y l) (y r)), (abs_sub_swap (x l) (x r)).
Qed.

Lemma tilt_same_place (l r l' r' : Keypoint) :
  (same_place l' l /\ same_place r' r)
  \/ (same_place l' r /\ same_place r' l) ->
  tilt l' r' = tilt l r.
Proof.
  intros [[[X1 Y1] [X2 Y2]]|[[X1 Y1] [X2 Y2]]].
  - unfold tilt. now rewrite X1, Y1, X2, Y2.
  - rewrite (tilt_swap l r). unfold tilt. now rewrite X1, Y1, X2, Y2.
Qed.

Lemma spineAngle_same_place (ls rs lh rh ls' rs' lh' rh' : Keypoint) :
  (same_place ls' ls /\ same_place rs' rs)
  \/ (same_place ls' rs /\ same_place rs' ls) ->
  (same_place lh' lh /\ same_place rh' rh)
  \/ (same_place lh' rh /\ same_place rh' lh) ->
  spineAngle atan2 ls' rs' lh' rh' = spineAngle atan2 ls rs lh rh.
Proof.
  intros Hs Hh. unfold spineAngle. cbn [px py].
  assert (Es : x ls' + x rs' = x ls + x rs /\ y ls' + y rs' = y ls + y rs).
  { destruct Hs as [[[X1 Y1] [X2 Y2]]|[[X1 Y1] [X2 Y2]]];
      rewrite X1, Y1, X2, Y2; split; auto using float_add_comm. }
  assert (Eh : x lh' + x rh' = x lh + x rh /\ y lh' + y rh' = y lh + y rh).
  { destruct Hh as [[[X1 Y1] [X2 Y2]]|[[X1 Y1] [X2 Y2]]];
      rewrite X1, Y1, X2, Y2; split; auto using float_add_comm. }
  destruct Es as [Esx Esy], Eh as [Ehx Ehy].
  now rewrite Esx, Esy, Ehx, Ehy.
Qed.

(** X7: after validation the result depends on the shoulders and on the
    hips as unordered pairs of places: exchanging the places of the left
    and the right shoulder, or of the left and the right hip, changes
    nothing. *)
Theorem analyzePosture_left_right
  keypoints leftShoulder rightShoulder leftHip rightHip
  keypoints' leftShoulder' rightShoulder' leftHip' rightHip' :
  validated keypoints leftShoulder rightShoulder leftHip rightHip ->
  validated keypoints' leftShoulder' rightShoulder' leftHip' rightHip' ->
  (same_place leftShoulder' leftShoulder /\ same_place rightShoulder' rightShoulder)
  \/ (same_place leftShoulder' rightShoulder
      /\ same_place rightShoulder' leftShoulder) ->
  (same_place leftHip' leftHip /\ same_place rightHip' rightHip)
  \/ (same_place leftHip' rightHip /\ same_place rightHip' leftHip) ->
  analyzePosture atan2 keypoints' = analyzePosture atan2 keypoints.
Proof.
  intros Hv Hv' Hs Hh.
  rewrite (analyzePosture_validated _ _ _ _ _ _ Hv).
  rewrite (analyzePosture_validated _ _ _ _ _ _ Hv').
  rewrite (tilt_same_place _ _ _ _ Hs), (tilt_same_place _ _ _ _ Hh).
  now rewrite (spineAngle_same_place _ _ _ _ _ _ _ _ Hs Hh).
Qed.

(** ** [calculateAngle] for every [Math.atan2] *)

(** X8: the angle at [point2] is the same with the two outer points
    exchanged, whatever [Math.atan2] returns. *)
Theorem calculateAngle_swap (point1 point2 point3 : Point2D) :
  calculateAngle atan2 point3 point2 point1
  = calculateAngle atan2 point1 point2 point3.
Proof.
  unfold calculateAngle, Math.abs.
  set (a := atan2 (py point3 - py point2) (px point3 - px point2)).
  set (b := atan2 (py point1 - py point2) (px point1 - px point2)).
  cbv zeta.
  now rewrite (abs_div_congr _ _ Math.PI
                 (abs_mul_congr _ _ 180 (abs_sub_swap b a))).
Qed.

(** X9: the result is never above 180: it is NaN or at most 180, whatever
    [Math.atan2] returns. *)
Theorem calculateAngle_at_most_180 (point1 point2 point3 : Point2D) :
  (calculateAngle atan2 point1 point2 point3 >? 180) = false.
Proof.
  unfold calculateAngle. cbv zeta.
  set (angle := Math.abs _).
  destruct (angle >? 180) eqn:H; [|exact H].
  unfold gtb in *. destruct (ltb_not_nan _ _ H) as [_ Na].
  apply (ltb_FX 180 angle eq_refl Na) in H.
  assert (N : is_nan (360 - angle) = false)
    by (now apply sub_finite_l_not_nan).
  apply ltb_false_of_le; [reflexivity|exact N|].
  change (FX 180) with (FX (360 - 180)).
  apply sub_mono; auto; lra.
Qed.

(** X10: when the two outer points are one and the same and [Math.atan2]
    returns a finite number for its direction, the angle is 0. *)
Theorem calculateAngle_same_point (point1 point2 : Point2D) :
  is_finite (atan2 (py point1 - py point2) (px point1 - px point2)) = true ->
  calculateAngle atan2 point1 point2 point1 = 0.
Proof.
  intros F. unfold calculateAngle. cbv zeta.
  rewrite (sub_diag _ (is_finite_SF _ F)). reflexivity.
Qed.

End MoreFacts.

(** * The overlay of [drawPose] *)

Lemma circles_app (a b : list CanvasOp) :
  circles (a ++ b) = circles a ++ circles b.
Proof. apply flat_map_app. Qed.

Lemma circles_keypoints (ks : list Keypoint) :
  circles (flat_map draw_keypoint ks)
  = map (fun k => (x k, y k)) (filter (fun k => score_above k 0.3) ks).
Proof.
  induction ks as [|k ks IH]; [reflexivity|].
  cbn [flat_map filter]. rewrite circles_app, IH. unfold draw_keypoint.
  destruct (score_above k 0.3); reflexivity.
Qed.

Lemma circles_draw_connection (ks : list Keypoint) (c : string * string) :
  circles (draw_connection ks c) = [].
Proof.
  unfold draw_connection. destruct c as [start stop].
  destruct (find_keypoint start ks) as [a|]; [|reflexivity].
  destruct (find_keypoint stop ks) as [b|]; [|reflexivity].
  destruct (_ && _); reflexivity.
Qed.

Lemma circles_connections (ks : list Keypoint) (cs : list (string * string)) :
  circles (flat_map (draw_connection ks) cs) = [].
Proof.
  induction cs as [|c cs IH]; [reflexivity|].
  cbn [flat_map]. now rewrite circles_app, circles_draw_connection, IH.
Qed.

Lemma circles_drawPose (pose : Pose) (rest : list Pose) :
  circles (drawPose (Some (pose :: rest)))
  = map (fun k => (x k, y k))
      (filter (fun k => score_above k 0.3) (keypoints pose)).
Proof.
  unfold drawPose. cbv zeta.
  now rewrite circles_app, circles_keypoints, circles_connections,
    app_nil_r.
Qed.

Lemma segments_keypoints_app (ks : list Keypoint) (l : list CanvasOp) :
  segments (flat_map draw_keypoint ks ++ l) = segments l.
Proof.
  induction ks as [|k ks IH]; [reflexivity|].
  cbn [flat_map]. rewrite <- app_assoc. unfold draw_keypoint at 1.
  destruct (score_above k 0.3); exact IH.
Qed.

(** The segment of a connection, when it is drawn. *)
Lemma segments_draw_connection_app (ks : list Keypoint)
  (start stop : string) (l : list CanvasOp) :
  segments (draw_connection ks (start, stop) ++ l)
  = match find_keypoint start ks, find_keypoint stop ks with
    | Some a, Some b =>
        if score_above a 0.3 && score_above b 0.3
        then ((x a, y a), (x b, y b)) :: segments l
        else segments l
    | _, _ => segments l
    end.
Proof.
  unfold draw_connection.
  destruct (find_keypoint start ks) as [a|]; [|reflexivity].
  destruct (find_keypoint stop ks) as [b|]; [|reflexivity].
  destruct (_ && _); reflexivity.
Qed.

Lemma shown_spec (ks : list Keypoint) (n : string) :
  shown ks n = true
  <-> exists k, find_keypoint n ks = Some k /\ score_above k 0.3 = true.
Proof.
  unfold shown. destruct (find_keypoint n ks) as [k|]; split.
  - intros H. now exists k.
  - intros (k' & E & H). now inversion E; subst.
  - discriminate.
  - intros (k' & E & _). discriminate.
Qed.

Lemma segments_drawPose (pose : Pose) (rest : list Pose) :
  segments (drawPose (Some (pose :: rest)))
  = segments (flat_map (draw_connection (keypoints pose)) connections).
Proof. unfold drawPose. cbv zeta. apply segments_keypoints_app. Qed.

(** A drawn segment joins two landmarks that are found and shown. *)
Lemma segments_connections_in (ks : list Keypoint)
  (cs : list (string * string)) (s : (float * float) * (float * float)) :
  In s (segments (flat_map (draw_connection ks) cs)) ->
  exists a b,
    In a ks /\ In b ks
    /\ score_above a 0.3 = true /\ score_above b 0.3 = true
    /\ s = ((x a, y a), (x b, y b)).
Proof.
  induction cs as [|[start stop] cs IH]; [intros []|].
  cbn [flat_map]. rewrite segments_draw_connection_app.
  destruct (find_keypoint start ks) as [a|] eqn:Ea; [|exact IH].
  destruct (find_keypoint stop ks) as [b|] eqn:Eb; [|exact IH].
  destruct (score_above a 0.3) eqn:Sa; [|exact IH].
  destruct (score_above b 0.3) eqn:Sb; [|exact IH].
  cbn [andb]. intros [<-|H]; [|now apply IH].
  exists a, b. unfold find_keypoint in Ea, Eb.
  apply find_some in Ea, Eb. tauto.
Qed.

Lemma segments_connections_length (ks : list Keypoint)
  (cs : list (string * string)) :
  List.length (segments (flat_map (draw_connection ks) cs))
  = List.length (filter (fun c => shown ks (fst c) && shown ks (snd c)) cs).
Proof.
  induction cs as [|[start stop] cs IH]; [reflexivity|].
  cbn [flat_map filter fst snd]. rewrite segments_draw_connection_app.
  unfold shown at 1 2.
  destruct (find_keypoint start ks) as [a|]; [|exact IH].
  destruct (find_keypoint stop ks) as [b|];
    [|now rewrite andb_false_r].
  destruct (score_above a 0.3 && score_above b 0.3); [|exact IH].
  cbn [List.length]. now rewrite IH.
Qed.

Lemma four_segments_iff (ks : list Keypoint) :
  List.length (filter (fun c => shown ks (fst c) && shown ks (snd c)) connections)
  = 4%nat
  <-> (forall n, In n required -> shown ks n = true).
Proof.
  unfold connections, required. cbn [filter fst snd]. split.
  - intros H n Hn.
    destruct (shown ks "left_shoulder") eqn:E1,
      (shown ks "right_shoulder") eqn:E2,
      (shown ks "left_hip") eqn:E3, (shown ks "right_hip") eqn:E4;
      cbn [andb List.length] in H; try discriminate.
    destruct Hn as [<-|[<-|[<-|[<-|[]]]]]; assumption.
  - intros H.
    rewrite (H "left_shoulder"), (H "right_shoulder"), (H "left_hip"),
      (H "right_hip") by (simpl; tauto).
    reflexivity.
Qed.

(** A keypoint that the overlay shows passes the confidence gate of the
    analysis. *)
Lemma score_above_not_below (k : Keypoint) :
  score_above k 0.3 = true -> score_below k minConfidence = false.
Proof.
  unfold score_above, score_below, minConfidence, gtb.
  destruct (score k) as [s|]; [|reflexivity].
  intros H. destruct (ltb_not_nan _ _ H) as [_ Ns].
  apply (ltb_FX 0.3 s eq_refl Ns) in H.
  apply ltb_false_of_le; auto. lra.
Qed.

(** X11: nothing is drawn for a list of poses that is absent or empty;
    otherwise the first pose alone is drawn, with one circle for each of
    its keypoints whose confidence is above 0.3, in the order of the
    keypoints, and none for the others. *)
Theorem circles_are_confident_keypoints (pose : Pose) (rest : list Pose) :
  drawPose None = [] /\ drawPose (Some []) = []
  /\ drawPose (Some (pose :: rest)) = drawPose (Some [pose])
  /\ circles (drawPose (Some (pose :: rest)))
     = map (fun k => (x k, y k))
         (filter (fun k => score_above k 0.3) (keypoints pose)).
Proof.
  repeat split. apply circles_drawPose.
Qed.

(** X12: every segment of the overlay starts and ends at the centre of a
    circle of the overlay. *)
Theorem segment_ends_are_circles (poses : option (list Pose))
  (a b : float * float) :
  In (a, b) (segments (drawPose poses)) ->
  In a (circles (drawPose poses)) /\ In b (circles (drawPose poses)).
Proof.
  destruct poses as [[|pose rest]|]; try (intros []).
  rewrite segments_drawPose, circles_drawPose. intros H.
  destruct (segments_connections_in _ _ _ H)
    as (ka & kb & Ia & Ib & Sa & Sb & E).
  inversion E; subst.
  split.
  - apply (in_map (fun k => (x k, y k))). apply filter_In. now split.
  - apply (in_map (fun k => (x k, y k))). apply filter_In. now split.
Qed.

(** X13: the overlay has one segment for each connection whose two
    landmarks are found and shown: four at most, and four exactly when the
    four landmarks of the torso are. *)
Theorem outline_segments (pose : Pose) (rest : list Pose) :
  let ks := keypoints pose in
  let drawn := segments (drawPose (Some (pose :: rest))) in
  List.length drawn
  = List.length (filter (fun c => shown ks (fst c) && shown ks (snd c))
              connections)
  /\ (List.length drawn <= 4)%nat
  /\ (List.length drawn = 4%nat <-> forall n, In n required -> shown ks n = true).
Proof.
  intros ks drawn.
  assert (E : List.length drawn
              = List.length (filter (fun c => shown ks (fst c) && shown ks (snd c))
                          connections)).
  { unfold drawn. rewrite segments_drawPose.
    apply segments_connections_length. }
  split; [exact E|]. split.
  - rewrite E. apply (filter_length_le _ connections).
  - rewrite E. apply four_segments_iff.
Qed.

Section Overlay.

Variable atan2 : float -> float -> float.

(** X14: when the overlay shows the whole outline of the torso (its four
    segments), the analysis of the same pose rejects nothing: the four
    landmarks pass validation and the result is the feedback on their
    features. *)
Theorem full_outline_is_analysed (pose : Pose) (rest : list Pose) :
  List.length (segments (drawPose (Some (pose :: rest)))) = 4%nat ->
  exists leftShoulder rightShoulder leftHip rightHip,
    validated (keypoints pose) leftShoulder rightShoulder leftHip rightHip
    /\ analyzePosture atan2 (keypoints pose)
       = feedback (tilt leftShoulder rightShoulder) (tilt leftHip rightHip)
           (aggregate (tilt leftShoulder rightShoulder)
              (tilt leftHip rightHip)
              (spineAngle atan2 leftShoulder rightShoulder leftHip rightHip)).
Proof.
  rewrite segments_drawPose, segments_connections_length.
  intros H. pose proof (proj1 (four_segments_iff _) H) as Hs.
  destruct (proj1 (shown_spec _ _) (Hs "left_shoulder" ltac:(simpl; tauto)))
    as (ls & Els & Sls).
  destruct (proj1 (shown_spec _ _) (Hs "right_shoulder" ltac:(simpl; tauto)))
    as (rs & Ers & Srs).
  destruct (proj1 (shown_spec _ _) (Hs "left_hip" ltac:(simpl; tauto)))
    as (lh & Elh & Slh).
  destruct (proj1 (shown_spec _ _) (Hs "right_hip" ltac:(simpl; tauto)))
    as (rh & Erh & Srh).
  exists ls, rs, lh, rh.
  assert (Hv : validated (keypoints pose) ls rs lh rh)
    by (repeat split; auto using score_above_not_below).
  split; [exact Hv|]. now apply analyzePosture_validated.
Qed.

End Overlay.

(** ** The further properties at concrete inputs *)

Lemma score_nan_iff_feature_nan_witness :
  status_score (analyzePosture atan2_axes coincident_shoulders) = nan
  /\ integer_score (status_score (analyzePosture atan2_axes stacked_hips)).
Proof.
  split.
  - apply (proj1 (score_nan_iff_feature_nan atan2_axes coincident_shoulders
             (kp "left_shoulder" 100 50 0.9) (kp "right_shoulder" 100 50 0.9)
             (kp "left_hip" 80 150 0.9) (kp "right_hip" 120 150 0.9)
             ltac:(repeat split; reflexivity))).
    reflexivity.
  - apply (proj2 (score_nan_iff_feature_nan atan2_axes stacked_hips
             (kp "left_shoulder" 0 10 0.9) (kp "right_shoulder" 100 10 0.9)
             (kp "left_hip" 50 100 0.9) (kp "right_hip" 50 130 0.9)
             ltac:(repeat split; reflexivity))).
    reflexivity.
Defined.

Lemma score_integer_on_proper_input_witness :
  integer_score (status_score (analyzePosture atan2_axes tilted_shoulders)).
Proof.
  apply (score_integer_on_proper_input atan2_axes tilted_shoulders
           (kp "left_shoulder" 0 0 0.9) (kp "right_shoulder" 100 20 0.9)
           (kp "left_hip" 0 100 0.9) (kp "right_hip" 100 100 0.9));
    [repeat split; reflexivity|reflexivity..].
Defined.

Lemma analyzePosture_permutation_witness :
  analyzePosture atan2_axes (rev upright) = analyzePosture atan2_axes upright.
Proof.
  apply (analyzePosture_permutation atan2_axes upright (rev upright)).
  - repeat constructor; simpl; intuition discriminate.
  - apply Permutation_rev.
Defined.

Lemma analyzePosture_left_right_witness :
  analyzePosture atan2_axes upright_from_behind
  = analyzePosture atan2_axes upright.
Proof.
  apply (analyzePosture_left_right atan2_axes
           upright
           (kp "left_shoulder" 0 10 0.9) (kp "right_shoulder" 100 10 0.9)
           (kp "left_hip" 0 100 0.9) (kp "right_hip" 100 100 0.9)
           upright_from_behind
           (kp "left_shoulder" 100 10 0.9) (kp "right_shoulder" 0 10 0.9)
           (kp "left_hip" 100 100 0.9) (kp "right_hip" 0 100 0.9)).
  - repeat split; reflexivity.
  - repeat split; reflexivity.
  - right. repeat split; reflexivity.
  - right. repeat split; reflexivity.
Defined.

Lemma calculateAngle_same_point_witness :
  calculateAngle atan2_axes (mkPoint 1 0) (mkPoint 0 0) (mkPoint 1 0) = 0.
Proof.
  apply (calculateAngle_same_point atan2_axes (mkPoint 1 0) (mkPoint 0 0)).
  reflexivity.
Defined.

Lemma segment_ends_are_circles_witness :
  In (0, 10) (circles (drawPose (Some [upright_pose])))
  /\ In (100, 10) (circles (drawPose (Some [upright_pose]))).
Proof.
  apply (segment_ends_are_circles (Some [upright_pose]) (0, 10) (100, 10)).
  vm_compute. left. reflexivity.
Defined.

Lemma full_outline_is_analysed_witness :
  exists leftShoulder rightShoulder leftHip rightHip,
    validated upright leftShoulder rightShoulder leftHip rightHip
    /\ analyzePosture atan2_axes upright
       = feedback (tilt leftShoulder rightShoulder) (tilt leftHip rightHip)
           (aggregate (tilt leftShoulder rightShoulder)
              (tilt leftHip rightHip)
              (spineAngle atan2_axes leftShoulder rightShoulder
                 leftHip rightHip)).
Proof.
  apply (full_outline_is_analysed atan2_axes upright_pose []).
  reflexivity.
Defined.

